(** * RefCounter: a reference-counted object pool (src/memroy_manager.py)

    A shallow embedding of the class [RefCounter] and the properties of
    its public operations.  The manager keeps two dictionaries keyed by
    [id(obj)], a [defaultdict(list)] of reclaimed objects keyed by
    [(type name, size category)], a running [memory_usage] counter and a
    [threading.Lock()].  Every method body runs under [with self.lock].
    The earlier src/memory_manager.py has the same [allocate],
    [increase_ref], [decrease_ref] and locking, with a flat list as the
    pool; the bucketed version is the one embedded here. *)

From Stdlib Require Import ZArith String.
From stdpp Require Import gmap strings list fin_maps.

Local Open Scope string_scope.
Local Open Scope Z_scope.
Local Open Scope list_scope.

(** ** The Python primitives the manager relies on

    [id(obj)], [sys.getsizeof(obj)] and [type(obj).__name__] are
    provided by the interpreter.  They are an interface of the object
    universe; the manager never looks inside an object otherwise. *)

Class PyObject (Obj : Type) := {
  id_of : Obj → Z;
  getsizeof : Obj → Z;
  type_name : Obj → string
}.

Module RefCounter.

Section Model.
Context {Obj : Type} `{PyObject Obj}.

(** The lines written by [_log] (a [print]), one constructor per
    f-string of the source. *)
Inductive LogMsg :=
| Allocated (obj_id : Z) (obj : Obj) (ref_count obj_size : Z)
| IncreasedRef (obj_id count : Z)
| DecreasedRef (obj_id count : Z)
| NotAllocated (obj : Obj)
| Dropping (obj_id obj_size : Z) (obj_type : string)
| Reused (obj_id obj_size : Z) (obj_type : string)
| NoSuitable
| CurrentUsage (usage : Z).

(** A bucket of the pool: the dictionary key and the list stored
    under it.  The dictionary is kept as an association list in
    insertion order, the order in which [items()] iterates. *)
Definition bucket_key : Type := string * string.
Definition bucket : Type := bucket_key * list Obj.

(** The attributes set by [__init__]; [lock] is [true] while the
    [threading.Lock] is held, and [printed] is the standard output. *)
Record state := State {
  references : gmap Z Z;
  objects : gmap Z Obj;
  memory_pool : list bucket;
  lock : bool;
  memory_usage : Z;
  printed : list LogMsg
}.

Definition __init__ : state :=
  State ∅ ∅ [] false 0 [].

Definition set_references (f : gmap Z Z → gmap Z Z) (s : state) : state :=
  State (f (references s)) (objects s) (memory_pool s) (lock s)
        (memory_usage s) (printed s).
Definition set_objects (f : gmap Z Obj → gmap Z Obj) (s : state) : state :=
  State (references s) (f (objects s)) (memory_pool s) (lock s)
        (memory_usage s) (printed s).
Definition set_memory_pool (f : list bucket → list bucket) (s : state) : state :=
  State (references s) (objects s) (f (memory_pool s)) (lock s)
        (memory_usage s) (printed s).
Definition set_lock (b : bool) (s : state) : state :=
  State (references s) (objects s) (memory_pool s) b
        (memory_usage s) (printed s).
Definition set_memory_usage (f : Z → Z) (s : state) : state :=
  State (references s) (objects s) (memory_pool s) (lock s)
        (f (memory_usage s)) (printed s).
Definition set_printed (f : list LogMsg → list LogMsg) (s : state) : state :=
  State (references s) (objects s) (memory_pool s) (lock s)
        (memory_usage s) (f (printed s)).

(** *** Method calls

    A call made by a thread either returns a value, raises, or never
    returns because the thread waits on a lock nobody will release. *)
Inductive outcome (A : Type) :=
| Returns (a : A) (s : state)
| Raises (s : state)
| Blocks (s : state).
Global Arguments Returns {A} a s.
Global Arguments Raises {A} s.
Global Arguments Blocks {A} s.

Definition M (A : Type) : Type := state → outcome A.

Definition ret {A} (a : A) : M A := λ s, Returns a s.

Definition bind {A B} (m : M A) (k : A → M B) : M B :=
  λ s, match m s with
       | Returns a s' => k a s'
       | Raises s' => Raises s'
       | Blocks s' => Blocks s'
       end.

Definition gets {A} (f : state → A) : M A := λ s, Returns (f s) s.
Definition modify (f : state → state) : M unit := λ s, Returns tt (f s).
Definition raise_KeyError {A} : M A := λ s, Raises s.

Definition state_of {A} (o : outcome A) : state :=
  match o with
  | Returns _ s | Raises s | Blocks s => s
  end.

Definition returned {A} (o : outcome A) : bool :=
  match o with Returns _ _ => true | _ => false end.

(** [with self.lock: body].  [threading.Lock] is not reentrant:
    [acquire] on a held lock waits for a release, also when the holder
    is the calling thread itself.  On leaving the block, normally or
    by an exception, the lock is released. *)
Definition with_lock {A} (body : M A) : M A :=
  λ s, if lock s then Blocks s
       else match body (set_lock true s) with
            | Returns a s' => Returns a (set_lock false s')
            | Raises s' => Raises (set_lock false s')
            | Blocks s' => Blocks s'
            end.

(** [_log(message)] *)
Definition _log (message : LogMsg) : M unit :=
  modify (set_printed (λ out, out ++ [message])).

(** [_size_category(size)] *)
Definition _size_category (size : Z) : string :=
  if size <? 100 then "small"
  else if size <? 1000 then "medium"
  else "large".

(** [a >= b] on Python strings: lexicographic on code points. *)
Definition str_ge (a b : string) : bool := String.leb b a.

(** [self.memory_pool[key].append(obj)] on a [defaultdict(list)]: an
    existing list grows in place, a missing key is created at the end
    of the dictionary with the one element. *)
Fixpoint pool_append (key : bucket_key) (obj : Obj) (pool : list bucket)
  : list bucket :=
  match pool with
  | [] => [(key, [obj])]
  | (k, objs) :: rest =>
      if decide (k = key) then (k, objs ++ [obj]) :: rest
      else (k, objs) :: pool_append key obj rest
  end.

(** [pool.pop()]: the last element and the list without it. *)
Fixpoint pop (pool : list Obj) : option (list Obj * Obj) :=
  match pool with
  | [] => None
  | [x] => Some ([], x)
  | x :: rest =>
      match pop rest with
      | Some (rest', y) => Some (x :: rest', y)
      | None => None
      end
  end.

(** The condition of the [if] inside the loop of [reuse]. *)
Definition bucket_matches (desired_type : option string)
    (size_category : string) (key : bucket_key) : bool :=
  let '(obj_type, category_size) := key in
  match desired_type with
  | None => true
  | Some name => bool_decide (obj_type = name)
  end && str_ge category_size size_category.

(** The loop of [reuse] up to the [pop]: the first bucket, in
    iteration order, that matches and is not empty gives its last
    object; the result carries the bucket's type name, the object and
    the pool after the [pop]. *)
Fixpoint take_candidate (desired_type : option string)
    (size_category : string) (pool : list bucket)
  : option (string * Obj * list bucket) :=
  match pool with
  | [] => None
  | (key, objs) :: rest =>
      let skip :=
        match take_candidate desired_type size_category rest with
        | Some (t, o, rest') => Some (t, o, (key, objs) :: rest')
        | None => None
        end in
      if bucket_matches desired_type size_category key then
        match pop objs with
        | Some (objs', reused_obj) =>
            Some (fst key, reused_obj, (key, objs') :: rest)
        | None => skip
        end
      else skip
  end.

(** [del d[k]], which raises [KeyError] on a missing key. *)
Definition del_references (k : Z) : M unit :=
  λ s, match references s !! k with
       | Some _ => Returns tt (set_references (delete k) s)
       | None => raise_KeyError s
       end.
Definition del_objects (k : Z) : M unit :=
  λ s, match objects s !! k with
       | Some _ => Returns tt (set_objects (delete k) s)
       | None => raise_KeyError s
       end.

(** [self.references[k]] as an expression. *)
Definition get_reference (k : Z) : M Z :=
  λ s, match references s !! k with
       | Some c => Returns c s
       | None => raise_KeyError s
       end.

Notation "'let*' x := m 'in' k" := (bind m (λ x, k))
  (at level 10, x name, m at level 100, k at level 200).
Notation "'do' m 'then' k" := (bind m (λ _, k))
  (at level 10, m at level 100, k at level 200).

(** *** The public methods *)

Definition allocate (obj : Obj) : M unit :=
  let obj_id := id_of obj in
  with_lock (
    let obj_size := getsizeof obj in
    do modify (set_memory_usage (λ u, u + obj_size)) then
    do modify (set_references <[obj_id := 1]>) then
    do modify (set_objects <[obj_id := obj]>) then
    let* count := get_reference obj_id in
    _log (Allocated obj_id obj count obj_size)).

Definition increase_ref (obj : Obj) : M unit :=
  let obj_id := id_of obj in
  with_lock (
    let* refs := gets references in
    match refs !! obj_id with
    | Some c =>
        do modify (set_references <[obj_id := c + 1]>) then
        let* count := get_reference obj_id in
        _log (IncreasedRef obj_id count)
    | None => _log (NotAllocated obj)
    end).

Definition drop (obj : Obj) : M unit :=
  let obj_id := id_of obj in
  with_lock (
    let* refs := gets references in
    match refs !! obj_id with
    | Some _ =>
        let obj_size := getsizeof obj in
        let obj_type := type_name obj in
        do _log (Dropping obj_id obj_size obj_type) then
        do modify (set_memory_usage (λ u, u - obj_size)) then
        do del_references obj_id then
        do del_objects obj_id then
        let size_category := (obj_type, _size_category obj_size) in
        modify (set_memory_pool (pool_append size_category obj))
    | None => ret tt
    end).

Definition decrease_ref (obj : Obj) : M unit :=
  let obj_id := id_of obj in
  with_lock (
    let* refs := gets references in
    match refs !! obj_id with
    | Some c =>
        do modify (set_references <[obj_id := c - 1]>) then
        let* count := get_reference obj_id in
        do _log (DecreasedRef obj_id count) then
        let* count := get_reference obj_id in
        if count =? 0 then drop obj else ret tt
    | None => _log (NotAllocated obj)
    end).

(** [desired_type] is [None] or a class; only its [__name__] is used. *)
Definition reuse (desired_type : option string) (min_size : Z)
  : M (option Obj) :=
  with_lock (
    let size_category := _size_category min_size in
    let* pool := gets memory_pool in
    match take_candidate desired_type size_category pool with
    | Some (obj_type, reused_obj, pool') =>
        do modify (set_memory_pool (λ _, pool')) then
        do allocate reused_obj then
        let obj_id := id_of reused_obj in
        do _log (Reused obj_id (getsizeof reused_obj) obj_type) then
        ret (Some reused_obj)
    | None =>
        do _log NoSuitable then
        ret None
    end).

Definition get_memory_usage : M Z :=
  with_lock (
    let* usage := gets memory_usage in
    do _log (CurrentUsage usage) then
    ret usage).

(** *** Sequences of calls *)

Inductive call :=
| Allocate (obj : Obj)
| IncreaseRef (obj : Obj)
| DecreaseRef (obj : Obj)
| Drop (obj : Obj)
| Reuse (desired_type : option string) (min_size : Z)
| GetMemoryUsage.

Inductive value :=
| VNone
| VObject (obj : Obj)
| VInt (n : Z).

Definition as_none : unit → value := λ _, VNone.

Definition perform (c : call) : M value :=
  match c with
  | Allocate obj => let* r := allocate obj in ret (as_none r)
  | IncreaseRef obj => let* r := increase_ref obj in ret (as_none r)
  | DecreaseRef obj => let* r := decrease_ref obj in ret (as_none r)
  | Drop obj => let* r := drop obj in ret (as_none r)
  | Reuse desired_type min_size =>
      let* r := reuse desired_type min_size in
      ret (match r with Some obj => VObject obj | None => VNone end)
  | GetMemoryUsage => let* n := get_memory_usage in ret (VInt n)
  end.

(** The state a single caller leaves behind after a list of calls; a
    call that does not return ends the run. *)
Fixpoint run (cs : list call) (s : state) : outcome value :=
  match cs with
  | [] => Returns VNone s
  | [c] => perform c s
  | c :: cs' =>
      match perform c s with
      | Returns _ s' => run cs' s'
      | o => o
      end
  end.

(** The states reachable from a new manager by calls of the public
    methods, the state in which a call is stuck included. *)
Inductive reachable : state → Prop :=
| reachable_init : reachable __init__
| reachable_call s c :
    reachable s → reachable (state_of (perform c s)).

(** [sum(sys.getsizeof(o) for o in self.objects.values())] *)
Definition live_size (objs : gmap Z Obj) : Z :=
  map_fold (λ _ o acc, getsizeof o + acc) 0 objs.

(** A call that does not allocate an identity that is already live. *)
Definition fresh_call (s : state) (c : call) : Prop :=
  match c with
  | Allocate obj => references s !! id_of obj = None
  | _ => True
  end.

Inductive reachable_fresh : state → Prop :=
| reachable_fresh_init : reachable_fresh __init__
| reachable_fresh_call s c :
    reachable_fresh s → fresh_call s c →
    reachable_fresh (state_of (perform c s)).

(** What the accounting argument carries from call to call: the
    tables agree, every object is stored under its own identity, and
    the counter is the size of what is stored. *)
Definition accounted (s : state) : Prop :=
  dom (references s) = dom (objects s) ∧
  (∀ (i : Z) o, objects s !! i = Some o → id_of o = i) ∧
  memory_usage s = live_size (objects s).

(** The calls that reach a nested [with self.lock]: [decrease_ref] on
    the last reference (it calls [drop]) and [reuse] when the pool
    has a candidate (it calls [allocate]). *)
Definition nests (s : state) (c : call) : bool :=
  match c with
  | DecreaseRef obj =>
      match references s !! id_of obj with
      | Some n => n =? 1
      | None => false
      end
  | Reuse desired_type min_size =>
      match take_candidate desired_type (_size_category min_size)
              (memory_pool s) with
      | Some _ => true
      | None => false
      end
  | _ => false
  end.

(** The one guard without an [else] branch: [drop] of an identity
    that is not tracked. *)
Definition silent (s : state) (c : call) : bool :=
  match c with
  | Drop obj =>
      match references s !! id_of obj with
      | Some _ => false
      | None => true
      end
  | _ => false
  end.

(** The identity a call is about; [reuse] and [get_memory_usage] take
    no object. *)
Definition target (c : call) : option Z :=
  match c with
  | Allocate obj | IncreaseRef obj | DecreaseRef obj | Drop obj =>
      Some (id_of obj)
  | Reuse _ _ | GetMemoryUsage => None
  end.

(** A bucket the loop of [reuse] walks past: its key fails the test, or
    its list is empty. *)
Definition passed_over (desired_type : option string)
    (size_category : string) (b : bucket) : bool :=
  negb (bucket_matches desired_type size_category (fst b)) ||
  match snd b with [] => true | _ :: _ => false end.

(** The [__main__] block of the file, for its object [obj1]. *)
Definition usage_example (obj1 : Obj) : list call :=
  [Allocate obj1; IncreaseRef obj1; DecreaseRef obj1; DecreaseRef obj1;
   GetMemoryUsage; Reuse (Some "dict") 50; GetMemoryUsage].

End Model.

Global Arguments state Obj : clear implicits.
Global Arguments LogMsg Obj : clear implicits.
Global Arguments call Obj : clear implicits.
Global Arguments value Obj : clear implicits.
Global Arguments bucket Obj : clear implicits.
Global Arguments outcome Obj A : clear implicits.
Global Arguments M Obj A : clear implicits.

End RefCounter.

(** * The earlier manager (src/memory_manager.py)

    The same class before the pool was bucketed: [memory_pool] is one
    list of [(obj_size, obj)] pairs in the order of the drops, [reuse]
    tests each entry with [isinstance] and with the recorded size, and
    the methods [print] directly.  [isinstance(obj, cls)] is one more
    primitive of the interpreter. *)

Class PyInstance (Obj Cls : Type) := {
  isinstance : Obj → Cls → bool
}.

Module MemoryManager.

Section Model.
Context {Obj Cls : Type} `{PyObject Obj} `{PyInstance Obj Cls}.

(** The printed lines, one constructor per f-string of this file. *)
Inductive LogMsg :=
| Allocated (obj_id : Z) (obj : Obj) (ref_count obj_size : Z)
| IncreasedRef (obj_id count : Z)
| DecreasedRef (obj_id count : Z)
| NotAllocated (obj : Obj)
| Dropping (obj_id obj_size : Z)
| Reused (obj : Obj) (obj_id obj_size : Z)
| NoSuitable
| CurrentUsage (usage : Z).

Record state := State {
  references : gmap Z Z;
  objects : gmap Z Obj;
  memory_pool : list (Z * Obj);
  lock : bool;
  memory_usage : Z;
  printed : list LogMsg
}.

Definition __init__ : state :=
  State ∅ ∅ [] false 0 [].

Definition set_references (f : gmap Z Z → gmap Z Z) (s : state) : state :=
  State (f (references s)) (objects s) (memory_pool s) (lock s)
        (memory_usage s) (printed s).
Definition set_objects (f : gmap Z Obj → gmap Z Obj) (s : state) : state :=
  State (references s) (f (objects s)) (memory_pool s) (lock s)
        (memory_usage s) (printed s).
Definition set_memory_pool (f : list (Z * Obj) → list (Z * Obj))
    (s : state) : state :=
  State (references s) (objects s) (f (memory_pool s)) (lock s)
        (memory_usage s) (printed s).
Definition set_lock (b : bool) (s : state) : state :=
  State (references s) (objects s) (memory_pool s) b
        (memory_usage s) (printed s).
Definition set_memory_usage (f : Z → Z) (s : state) : state :=
  State (references s) (objects s) (memory_pool s) (lock s)
        (f (memory_usage s)) (printed s).
Definition set_printed (f : list LogMsg → list LogMsg) (s : state) : state :=
  State (references s) (objects s) (memory_pool s) (lock s)
        (memory_usage s) (f (printed s)).

Inductive outcome (A : Type) :=
| Returns (a : A) (s : state)
| Raises (s : state)
| Blocks (s : state).
Global Arguments Returns {A} a s.
Global Arguments Raises {A} s.
Global Arguments Blocks {A} s.

Definition M (A : Type) : Type := state → outcome A.

Definition ret {A} (a : A) : M A := λ s, Returns a s.

Definition bind {A B} (m : M A) (k : A → M B) : M B :=
  λ s, match m s with
       | Returns a s' => k a s'
       | Raises s' => Raises s'
       | Blocks s' => Blocks s'
       end.

Definition gets {A} (f : state → A) : M A := λ s, Returns (f s) s.
Definition modify (f : state → state) : M unit := λ s, Returns tt (f s).
Definition raise_KeyError {A} : M A := λ s, Raises s.

Definition state_of {A} (o : outcome A) : state :=
  match o with
  | Returns _ s | Raises s | Blocks s => s
  end.

(** [with self.lock: body], on the same non-reentrant
    [threading.Lock()]. *)
Definition with_lock {A} (body : M A) : M A :=
  λ s, if lock s then Blocks s
       else match body (set_lock true s) with
            | Returns a s' => Returns a (set_lock false s')
            | Raises s' => Raises (set_lock false s')
            | Blocks s' => Blocks s'
            end.

(** [print(message)] *)
Definition print (message : LogMsg) : M unit :=
  modify (set_printed (λ out, out ++ [message])).

Definition del_references (k : Z) : M unit :=
  λ s, match references s !! k with
       | Some _ => Returns tt (set_references (delete k) s)
       | None => raise_KeyError s
       end.
Definition del_objects (k : Z) : M unit :=
  λ s, match objects s !! k with
       | Some _ => Returns tt (set_objects (delete k) s)
       | None => raise_KeyError s
       end.
Definition get_reference (k : Z) : M Z :=
  λ s, match references s !! k with
       | Some c => Returns c s
       | None => raise_KeyError s
       end.

(** The condition of the [if] inside the loop of [reuse]: the size
    recorded at the drop is compared with [min_size] as a number. *)
Definition entry_matches (desired_type : option Cls) (min_size : Z)
    (entry : Z * Obj) : bool :=
  let '(obj_size, obj) := entry in
  match desired_type with
  | None => true
  | Some cls => isinstance obj cls
  end && (obj_size >=? min_size).

(** The loop of [reuse] with its [self.memory_pool.pop(i)]: the first
    entry that passes the test, and the list without it. *)
Fixpoint take_entry (desired_type : option Cls) (min_size : Z)
    (pool : list (Z * Obj)) : option (Z * Obj * list (Z * Obj)) :=
  match pool with
  | [] => None
  | entry :: rest =>
      if entry_matches desired_type min_size entry
      then Some (fst entry, snd entry, rest)
      else match take_entry desired_type min_size rest with
           | Some (obj_size, obj, rest') => Some (obj_size, obj, entry :: rest')
           | None => None
           end
  end.

Notation "'let*' x := m 'in' k" := (bind m (λ x, k))
  (at level 10, x name, m at level 100, k at level 200).
Notation "'do' m 'then' k" := (bind m (λ _, k))
  (at level 10, m at level 100, k at level 200).

Definition allocate (obj : Obj) : M unit :=
  let obj_id := id_of obj in
  with_lock (
    let obj_size := getsizeof obj in
    do modify (set_memory_usage (λ u, u + obj_size)) then
    do modify (set_references <[obj_id := 1]>) then
    do modify (set_objects <[obj_id := obj]>) then
    let* count := get_reference obj_id in
    print (Allocated obj_id obj count obj_size)).

Definition increase_ref (obj : Obj) : M unit :=
  let obj_id := id_of obj in
  with_lock (
    let* refs := gets references in
    match refs !! obj_id with
    | Some c =>
        do modify (set_references <[obj_id := c + 1]>) then
        let* count := get_reference obj_id in
        print (IncreasedRef obj_id count)
    | None => print (NotAllocated obj)
    end).

Definition drop (obj : Obj) : M unit :=
  let obj_id := id_of obj in
  with_lock (
    let* refs := gets references in
    match refs !! obj_id with
    | Some _ =>
        let obj_size := getsizeof obj in
        do print (Dropping obj_id obj_size) then
        do modify (set_memory_usage (λ u, u - obj_size)) then
        do del_references obj_id then
        do del_objects obj_id then
        modify (set_memory_pool (λ pool, pool ++ [(obj_size, obj)]))
    | None => ret tt
    end).

Definition decrease_ref (obj : Obj) : M unit :=
  let obj_id := id_of obj in
  with_lock (
    let* refs := gets references in
    match refs !! obj_id with
    | Some c =>
        do modify (set_references <[obj_id := c - 1]>) then
        let* count := get_reference obj_id in
        do print (DecreasedRef obj_id count) then
        let* count := get_reference obj_id in
        if count =? 0 then drop obj else ret tt
    | None => print (NotAllocated obj)
    end).

Definition reuse (desired_type : option Cls) (min_size : Z)
  : M (option Obj) :=
  with_lock (
    let* pool := gets memory_pool in
    match take_entry desired_type min_size pool with
    | Some (obj_size, obj, pool') =>
        do modify (set_memory_pool (λ _, pool')) then
        let obj_id := id_of obj in
        do allocate obj then
        do print (Reused obj obj_id obj_size) then
        ret (Some obj)
    | None =>
        do print NoSuitable then
        ret None
    end).

Definition get_memory_usage : M Z :=
  with_lock (
    let* usage := gets memory_usage in
    do print (CurrentUsage usage) then
    ret usage).

Inductive call :=
| Allocate (obj : Obj)
| IncreaseRef (obj : Obj)
| DecreaseRef (obj : Obj)
| Drop (obj : Obj)
| Reuse (desired_type : option Cls) (min_size : Z)
| GetMemoryUsage.

Inductive value :=
| VNone
| VObject (obj : Obj)
| VInt (n : Z).

Definition as_none : unit → value := λ _, VNone.

Definition perform (c : call) : M value :=
  match c with
  | Allocate obj => let* r := allocate obj in ret (as_none r)
  | IncreaseRef obj => let* r := increase_ref obj in ret (as_none r)
  | DecreaseRef obj => let* r := decrease_ref obj in ret (as_none r)
  | Drop obj => let* r := drop obj in ret (as_none r)
  | Reuse desired_type min_size =>
      let* r := reuse desired_type min_size in
      ret (match r with Some obj => VObject obj | None => VNone end)
  | GetMemoryUsage => let* n := get_memory_usage in ret (VInt n)
  end.

Fixpoint run (cs : list call) (s : state) : outcome value :=
  match cs with
  | [] => Returns VNone s
  | [c] => perform c s
  | c :: cs' =>
      match perform c s with
      | Returns _ s' => run cs' s'
      | o => o
      end
  end.

Inductive reachable : state → Prop :=
| reachable_init : reachable __init__
| reachable_call s c :
    reachable s → reachable (state_of (perform c s)).

(** The calls that reach a nested [with self.lock]. *)
Definition nests (s : state) (c : call) : bool :=
  match c with
  | DecreaseRef obj =>
      match references s !! id_of obj with
      | Some n => n =? 1
      | None => false
      end
  | Reuse desired_type min_size =>
      match take_entry desired_type min_size (memory_pool s) with
      | Some _ => true
      | None => false
      end
  | _ => false
  end.

(** The [__main__] block of this file, for its object [obj1] and the
    class [dict]. *)
Definition usage_example (obj1 : Obj) (dict : Cls) : list call :=
  [Allocate obj1; IncreaseRef obj1; DecreaseRef obj1; DecreaseRef obj1;
   GetMemoryUsage; Reuse (Some dict) 50; GetMemoryUsage].

End Model.

Global Arguments state Obj : clear implicits.
Global Arguments LogMsg Obj : clear implicits.
Global Arguments call Obj Cls : clear implicits.
Global Arguments value Obj : clear implicits.
Global Arguments outcome Obj A : clear implicits.
Global Arguments M Obj A : clear implicits.

End MemoryManager.

(** ** A small heap of concrete objects

    Three objects with distinct identities, as three values alive at the
    same time have in CPython: an empty [dict] (64 bytes), the
    [{"data": "example"}] of the usage example (232 bytes) and a list of
    a thousand elements (8056 bytes). *)

Module Demo.

Inductive obj := empty_dict | example_dict | thousand_list.

#[global] Instance obj_py : PyObject obj := {|
  id_of o := match o with
             | empty_dict => 4301
             | example_dict => 4302
             | thousand_list => 4303
             end;
  getsizeof o := match o with
                 | empty_dict => 64
                 | example_dict => 232
                 | thousand_list => 8056
                 end;
  type_name o := match o with
                 | empty_dict | example_dict => "dict"
                 | thousand_list => "list"
                 end
|}.

(** The classes of these objects, with [object] above both. *)
Inductive cls := dict_cls | list_cls | object_cls.

#[global] Instance obj_isinstance : PyInstance obj cls := {|
  isinstance o c :=
    match c, o with
    | object_cls, _ => true
    | dict_cls, (empty_dict | example_dict) => true
    | list_cls, thousand_list => true
    | _, _ => false
    end
|}.

End Demo.

Import RefCounter.

Section Theory.
Context {Obj : Type} `{PyObject Obj}.
Implicit Types (obj : Obj) (s : state Obj) (c : call Obj).
Implicit Types (refs : gmap Z Z) (objs : gmap Z Obj) (pool : list (bucket Obj)).
Implicit Types (usage : Z) (out : list (LogMsg Obj)).

(** Unfold one layer of a method body, project the record fields and
    use the known table lookups, until nothing moves. *)
Ltac step_method :=
  repeat progress (
    unfold allocate, increase_ref, decrease_ref, drop, reuse,
      get_memory_usage, with_lock, bind, gets, modify, _log, ret,
      get_reference, del_references, del_objects, raise_KeyError,
      set_references, set_objects, set_memory_pool, set_lock,
      set_memory_usage, set_printed;
    cbn [references objects memory_pool lock memory_usage printed];
    rewrite ?lookup_insert_eq;
    repeat match goal with
           | Hl : ?m !! ?k = _ |- context [?m !! ?k] => rewrite Hl
           | Hl : lock ?s = _ |- context [lock ?s] => rewrite Hl
           | Hl : take_candidate ?t ?z ?p = _
             |- context [take_candidate ?t ?z ?p] => rewrite Hl
           end).

Lemma allocate_unlocked obj refs objs pool usage out :
  allocate obj (State refs objs pool false usage out) =
  Returns tt (State (<[id_of obj := 1]> refs) (<[id_of obj := obj]> objs)
                    pool false (usage + getsizeof obj)
                    (out ++ [Allocated (id_of obj) obj 1 (getsizeof obj)])).
Proof. by step_method. Qed.

Lemma increase_ref_tracked obj refs objs pool usage out n :
  refs !! id_of obj = Some n →
  increase_ref obj (State refs objs pool false usage out) =
  Returns tt (State (<[id_of obj := n + 1]> refs) objs pool false usage
                    (out ++ [IncreasedRef (id_of obj) (n + 1)])).
Proof. intros Hn. by step_method. Qed.

Lemma increase_ref_untracked obj refs objs pool usage out :
  refs !! id_of obj = None →
  increase_ref obj (State refs objs pool false usage out) =
  Returns tt (State refs objs pool false usage (out ++ [NotAllocated obj])).
Proof. intros Hn. by step_method. Qed.

Lemma drop_tracked obj refs objs pool usage out n o :
  refs !! id_of obj = Some n →
  objs !! id_of obj = Some o →
  drop obj (State refs objs pool false usage out) =
  Returns tt
    (State (delete (id_of obj) refs) (delete (id_of obj) objs)
           (pool_append (type_name obj, _size_category (getsizeof obj)) obj pool)
           false (usage - getsizeof obj)
           (out ++ [Dropping (id_of obj) (getsizeof obj) (type_name obj)])).
Proof. intros Hn Ho. by step_method. Qed.

Lemma drop_untracked obj refs objs pool usage out :
  refs !! id_of obj = None →
  drop obj (State refs objs pool false usage out) =
  Returns tt (State refs objs pool false usage out).
Proof. intros Hn. by step_method. Qed.

Lemma drop_locked obj s : lock s = true → drop obj s = Blocks s.
Proof. intros Hl. by step_method. Qed.

Lemma allocate_locked obj s : lock s = true → allocate obj s = Blocks s.
Proof. intros Hl. by step_method. Qed.

Lemma decrease_ref_untracked obj refs objs pool usage out :
  refs !! id_of obj = None →
  decrease_ref obj (State refs objs pool false usage out) =
  Returns tt (State refs objs pool false usage (out ++ [NotAllocated obj])).
Proof. intros Hn. by step_method. Qed.

Lemma decrease_ref_shared obj refs objs pool usage out n :
  refs !! id_of obj = Some n → n ≠ 1 →
  decrease_ref obj (State refs objs pool false usage out) =
  Returns tt (State (<[id_of obj := n - 1]> refs) objs pool false usage
                    (out ++ [DecreasedRef (id_of obj) (n - 1)])).
Proof.
  intros Hn Hne. step_method.
  destruct (Z.eqb_spec (n - 1) 0) as [Hz|_]; [lia | by step_method].
Qed.

(** The last reference: the count is written as 0, the line is
    printed, and the nested [drop] waits for the lock its caller
    holds. *)
Lemma decrease_ref_last obj refs objs pool usage out :
  refs !! id_of obj = Some 1 →
  decrease_ref obj (State refs objs pool false usage out) =
  Blocks (State (<[id_of obj := 0]> refs) objs pool true usage
                (out ++ [DecreasedRef (id_of obj) 0])).
Proof. intros Hn. by step_method. Qed.

Lemma reuse_nothing desired_type min_size refs objs pool usage out :
  take_candidate desired_type (_size_category min_size) pool = None →
  reuse desired_type min_size (State refs objs pool false usage out) =
  Returns None (State refs objs pool false usage (out ++ [NoSuitable])).
Proof. intros Hc. by step_method. Qed.

(** A candidate: it is popped, and the nested [allocate] waits for
    the lock its caller holds. *)
Lemma reuse_candidate desired_type min_size refs objs pool usage out
    obj_type reused_obj pool' :
  take_candidate desired_type (_size_category min_size) pool =
    Some (obj_type, reused_obj, pool') →
  reuse desired_type min_size (State refs objs pool false usage out) =
  Blocks (State refs objs pool' true usage out).
Proof. intros Hc. by step_method. Qed.

Lemma get_memory_usage_unlocked refs objs pool usage out :
  get_memory_usage (State refs objs pool false usage out) =
  Returns usage (State refs objs pool false usage (out ++ [CurrentUsage usage])).
Proof. by step_method. Qed.

Lemma perform_locked c s : lock s = true → perform c s = Blocks s.
Proof. intros Hl. destruct c; unfold perform; by step_method. Qed.

(** *** The two live tables *)

Lemma tracked_has_object refs objs (i : Z) n :
  dom refs = dom objs → refs !! i = Some n → ∃ o, objs !! i = Some o.
Proof.
  intros Hdom Hn. apply (elem_of_dom objs i). rewrite <- Hdom.
  apply elem_of_dom. by exists n.
Qed.

Lemma perform_same_identities c s :
  dom (references s) = dom (objects s) →
  dom (references (state_of (perform c s))) =
  dom (objects (state_of (perform c s))).
Proof.
  destruct s as [refs objs pool [] usage out]; cbn [references objects];
    intros Hdom.
  { by rewrite perform_locked. }
  destruct c as [obj|obj|obj|obj|desired_type min_size|];
    unfold perform, bind.
  - rewrite allocate_unlocked. cbn. rewrite !dom_insert_L. by rewrite Hdom.
  - destruct (refs !! id_of obj) as [n|] eqn:Hn.
    + rewrite (increase_ref_tracked _ _ _ _ _ _ _ Hn). cbn.
      by rewrite dom_insert_lookup_L.
    + by rewrite increase_ref_untracked.
  - destruct (refs !! id_of obj) as [n|] eqn:Hn.
    + destruct (decide (n = 1)) as [->|Hne].
      * rewrite (decrease_ref_last _ _ _ _ _ _ Hn). cbn.
        by rewrite dom_insert_lookup_L.
      * rewrite (decrease_ref_shared _ _ _ _ _ _ _ Hn Hne). cbn.
        by rewrite dom_insert_lookup_L.
    + by rewrite decrease_ref_untracked.
  - destruct (refs !! id_of obj) as [n|] eqn:Hn.
    + destruct (tracked_has_object _ _ _ _ Hdom Hn) as [o Ho].
      rewrite (drop_tracked _ _ _ _ _ _ _ _ Hn Ho). cbn.
      by rewrite !dom_delete_L, Hdom.
    + by rewrite drop_untracked.
  - destruct (take_candidate desired_type (_size_category min_size) pool)
      as [[[obj_type reused_obj] pool']|] eqn:Hc.
    + by rewrite (reuse_candidate _ _ _ _ _ _ _ _ _ _ Hc).
    + by rewrite reuse_nothing.
  - by rewrite get_memory_usage_unlocked.
Qed.

Lemma live_tables_agree s :
  reachable s → dom (references s) = dom (objects s).
Proof.
  induction 1 as [|s c _ IH]; [done | by apply perform_same_identities].
Qed.

(** C9: in every state reachable by calls of the public methods, an
    identity is a key of [references] if and only if it is a key of
    [objects]; a call that adds or removes a key of one table adds or
    removes it in the other within the same call. *)
Theorem live_tables_same_identities s :
  reachable s →
  dom (references s) = dom (objects s) ∧
  ∀ c (i : Z),
    let s' := state_of (perform c s) in
    (i ∈ dom (references s') ↔ i ∈ dom (references s)) ↔
    (i ∈ dom (objects s') ↔ i ∈ dom (objects s)).
Proof.
  intros Hs. apply live_tables_agree in Hs as Hdom.
  split; [done |]. intros c i s'.
  pose proof (perform_same_identities c s Hdom) as Hdom'.
  fold s' in Hdom'. by rewrite Hdom, Hdom'.
Qed.

(** *** Memory accounting *)

Lemma live_size_insert objs (i : Z) o :
  objs !! i = None →
  live_size (<[i := o]> objs) = getsizeof o + live_size objs.
Proof.
  intros Hi. unfold live_size.
  rewrite map_fold_insert_L; [done | intros; lia | done].
Qed.

Lemma live_size_delete objs (i : Z) o :
  objs !! i = Some o →
  live_size objs = getsizeof o + live_size (delete i objs).
Proof.
  intros Hi. unfold live_size.
  rewrite (map_fold_delete_L _ _ i o objs); [done | intros; lia | done].
Qed.

Lemma perform_accounted c s :
  (∀ o1 o2 : Obj, id_of o1 = id_of o2 → o1 = o2) →
  fresh_call s c → accounted s → accounted (state_of (perform c s)).
Proof.
  intros Hinj Hfresh (Hdom & Hkey & Hsum).
  pose proof (perform_same_identities c s Hdom) as Hdom'.
  split; [done | clear Hdom'].
  destruct s as [refs objs pool [] usage out];
    cbn [references objects memory_usage] in *.
  { by rewrite perform_locked. }
  destruct c as [obj|obj|obj|obj|desired_type min_size|];
    unfold perform, bind; cbn [fresh_call references] in Hfresh.
  - rewrite allocate_unlocked. cbn.
    assert (objs !! id_of obj = None) as Hnone.
    { apply (not_elem_of_dom objs). rewrite <- Hdom.
      by apply not_elem_of_dom. }
    split.
    + intros i o. rewrite lookup_insert. case_decide; naive_solver.
    + rewrite live_size_insert by done. lia.
  - destruct (refs !! id_of obj) as [n|] eqn:Hn.
    + by rewrite (increase_ref_tracked _ _ _ _ _ _ _ Hn).
    + by rewrite increase_ref_untracked.
  - destruct (refs !! id_of obj) as [n|] eqn:Hn.
    + destruct (decide (n = 1)) as [->|Hne].
      * by rewrite (decrease_ref_last _ _ _ _ _ _ Hn).
      * by rewrite (decrease_ref_shared _ _ _ _ _ _ _ Hn Hne).
    + by rewrite decrease_ref_untracked.
  - destruct (refs !! id_of obj) as [n|] eqn:Hn.
    + destruct (tracked_has_object _ _ _ _ Hdom Hn) as [o Ho].
      rewrite (drop_tracked _ _ _ _ _ _ _ _ Hn Ho). cbn.
      assert (o = obj) as -> by (apply Hinj; eauto).
      split.
      * intros i o'. rewrite lookup_delete. case_decide; naive_solver.
      * rewrite (live_size_delete objs _ _ Ho) in Hsum. lia.
    + by rewrite drop_untracked.
  - destruct (take_candidate desired_type (_size_category min_size) pool)
      as [[[obj_type reused_obj] pool']|] eqn:Hc.
    + by rewrite (reuse_candidate _ _ _ _ _ _ _ _ _ _ Hc).
    + by rewrite reuse_nothing.
  - by rewrite get_memory_usage_unlocked.
Qed.

(** C2 (amended): with identities unique per object, in every state
    reachable from a new manager by calls of the public methods in
    which [allocate] is only called on an identity that is not
    already live, [memory_usage] is the sum of [sys.getsizeof(o)] over
    the objects of the live-object table. *)
Theorem memory_usage_is_live_size s :
  (∀ o1 o2 : Obj, id_of o1 = id_of o2 → o1 = o2) →
  reachable_fresh s →
  memory_usage s = live_size (objects s).
Proof.
  intros Hinj Hs. cut (accounted s); [by intros (_ & _ & ?) |].
  induction Hs as [|s c _ IH Hfresh].
  - split; [by cbn; rewrite !dom_empty_L | split].
    + intros i o. cbn. by rewrite lookup_empty.
    + cbn. unfold live_size. by rewrite map_fold_empty.
  - by apply perform_accounted.
Qed.

(** *** Which calls return, and what they print *)

Lemma perform_returns_unless_nested c s :
  reachable s → lock s = false →
  returned (perform c s) = negb (nests s c).
Proof.
  intros Hs Hl. apply live_tables_agree in Hs as Hdom.
  destruct s as [refs objs pool l usage out];
    cbn [references objects lock] in *; subst l.
  destruct c as [obj|obj|obj|obj|desired_type min_size|];
    unfold perform, bind, nests; cbn [references memory_pool].
  - by rewrite allocate_unlocked.
  - destruct (refs !! id_of obj) as [n|] eqn:Hn.
    + by rewrite (increase_ref_tracked _ _ _ _ _ _ _ Hn).
    + by rewrite increase_ref_untracked.
  - destruct (refs !! id_of obj) as [n|] eqn:Hn.
    + destruct (decide (n = 1)) as [->|Hne].
      * by rewrite (decrease_ref_last _ _ _ _ _ _ Hn).
      * rewrite (decrease_ref_shared _ _ _ _ _ _ _ Hn Hne).
        by destruct (Z.eqb_spec n 1).
    + by rewrite decrease_ref_untracked.
  - destruct (refs !! id_of obj) as [n|] eqn:Hn.
    + destruct (tracked_has_object _ _ _ _ Hdom Hn) as [o Ho].
      by rewrite (drop_tracked _ _ _ _ _ _ _ _ Hn Ho).
    + by rewrite drop_untracked.
  - destruct (take_candidate desired_type (_size_category min_size) pool)
      as [[[obj_type reused_obj] pool']|] eqn:Hc.
    + by rewrite (reuse_candidate _ _ _ _ _ _ _ _ _ _ Hc).
    + by rewrite reuse_nothing.
  - by rewrite get_memory_usage_unlocked.
Qed.

(** The calls that do print their one line.  Between calls, every
    call of [allocate], [increase_ref], [get_memory_usage], of
    [decrease_ref] that does not release the last reference, of [drop]
    on a tracked identity and of [reuse] that finds no candidate
    returns after printing exactly one line; the guard rejections of
    [increase_ref] and [decrease_ref] are among them. *)
Theorem one_line_per_plain_call c s :
  reachable s → lock s = false →
  nests s c = false → silent s c = false →
  ∃ v s' line,
    perform c s = Returns v s' ∧ printed s' = printed s ++ [line].
Proof.
  intros Hs Hl. apply live_tables_agree in Hs as Hdom.
  destruct s as [refs objs pool l usage out];
    cbn [references objects lock printed] in *; subst l.
  destruct c as [obj|obj|obj|obj|desired_type min_size|];
    unfold perform, bind, nests, silent; cbn [references memory_pool];
    intros Hnest Hsilent.
  - rewrite allocate_unlocked. by eexists _, _, _.
  - destruct (refs !! id_of obj) as [n|] eqn:Hn.
    + rewrite (increase_ref_tracked _ _ _ _ _ _ _ Hn). by eexists _, _, _.
    + rewrite increase_ref_untracked by done. by eexists _, _, _.
  - destruct (refs !! id_of obj) as [n|] eqn:Hn.
    + apply Z.eqb_neq in Hnest.
      rewrite (decrease_ref_shared _ _ _ _ _ _ _ Hn Hnest).
      by eexists _, _, _.
    + rewrite decrease_ref_untracked by done. by eexists _, _, _.
  - destruct (refs !! id_of obj) as [n|] eqn:Hn; [| done].
    destruct (tracked_has_object _ _ _ _ Hdom Hn) as [o Ho].
    rewrite (drop_tracked _ _ _ _ _ _ _ _ Hn Ho). by eexists _, _, _.
  - destruct (take_candidate desired_type (_size_category min_size) pool)
      as [[[obj_type reused_obj] pool']|] eqn:Hc; [done |].
    rewrite reuse_nothing by done. by eexists _, _, _.
  - rewrite get_memory_usage_unlocked. by eexists _, _, _.
Qed.

(** C6: on an object whose identity is not a key of [references],
    [increase_ref] and [decrease_ref] return normally, leave both
    tables, [memory_usage] and the pool as they were, and print the
    "not allocated" line, which is the only change of the state. *)
Theorem ref_calls_on_untracked_object obj s :
  lock s = false →
  references s !! id_of obj = None →
  increase_ref obj s =
    Returns tt (set_printed (λ out, out ++ [NotAllocated obj]) s) ∧
  decrease_ref obj s =
    Returns tt (set_printed (λ out, out ++ [NotAllocated obj]) s).
Proof.
  destruct s as [refs objs pool l usage out]; cbn [lock references].
  intros -> Hn.
  by rewrite increase_ref_untracked, decrease_ref_untracked.
Qed.

(** C10: [allocate] on an object whose identity is already tracked
    returns with the count of that identity set to 1 whatever it was,
    the object stored under it, the keys of both tables unchanged (one
    entry for the identity in each), the pool untouched, and
    [memory_usage] increased by the object's size once more. *)
Theorem allocate_again_resets_count obj s n o :
  lock s = false →
  references s !! id_of obj = Some n →
  objects s !! id_of obj = Some o →
  ∃ s',
    allocate obj s = Returns tt s' ∧
    references s' = <[id_of obj := 1]> (references s) ∧
    references s' !! id_of obj = Some 1 ∧
    objects s' !! id_of obj = Some obj ∧
    dom (references s') = dom (references s) ∧
    dom (objects s') = dom (objects s) ∧
    memory_pool s' = memory_pool s ∧
    memory_usage s' = memory_usage s + getsizeof obj.
Proof.
  destruct s as [refs objs pool l usage out];
    cbn [lock references objects memory_pool memory_usage].
  intros -> Hn Ho. eexists. split; [apply allocate_unlocked |]. cbn.
  rewrite !lookup_insert_eq, !dom_insert_lookup_L by eauto. done.
Qed.

(** *** Reference counts between calls *)

Lemma counts_at_least_one s :
  reachable s → lock s = false →
  ∀ (i : Z) n, references s !! i = Some n → 1 ≤ n.
Proof.
  induction 1 as [|s c Hs IH]; [by intros _ i n; cbn; rewrite lookup_empty |].
  apply live_tables_agree in Hs as Hdom.
  destruct s as [refs objs pool [] usage out];
    cbn [references objects lock] in *.
  { by rewrite perform_locked. }
  specialize (IH eq_refl).
  destruct c as [obj|obj|obj|obj|desired_type min_size|];
    unfold perform, bind.
  - rewrite allocate_unlocked. cbn. intros _ i n.
    rewrite lookup_insert. case_decide; [intros [= <-]; lia | eauto].
  - destruct (refs !! id_of obj) as [m|] eqn:Hm.
    + rewrite (increase_ref_tracked _ _ _ _ _ _ _ Hm). cbn. intros _ i n.
      rewrite lookup_insert. case_decide; [intros [= <-] | eauto].
      specialize (IH _ _ Hm). lia.
    + rewrite increase_ref_untracked by done. cbn. eauto.
  - destruct (refs !! id_of obj) as [m|] eqn:Hm.
    + destruct (decide (m = 1)) as [->|Hne].
      * by rewrite (decrease_ref_last _ _ _ _ _ _ Hm).
      * rewrite (decrease_ref_shared _ _ _ _ _ _ _ Hm Hne). cbn.
        intros _ i n.
        rewrite lookup_insert. case_decide; [intros [= <-] | eauto].
        specialize (IH _ _ Hm). lia.
    + rewrite decrease_ref_untracked by done. cbn. eauto.
  - destruct (refs !! id_of obj) as [m|] eqn:Hm.
    + destruct (tracked_has_object _ _ _ _ Hdom Hm) as [o Ho].
      rewrite (drop_tracked _ _ _ _ _ _ _ _ Hm Ho). cbn. intros _ i n.
      rewrite lookup_delete. case_decide; [done | eauto].
    + rewrite drop_untracked by done. cbn. eauto.
  - destruct (take_candidate desired_type (_size_category min_size) pool)
      as [[[obj_type reused_obj] pool']|] eqn:Hc.
    + by rewrite (reuse_candidate _ _ _ _ _ _ _ _ _ _ Hc).
    + rewrite reuse_nothing by done. cbn. eauto.
  - rewrite get_memory_usage_unlocked. cbn. eauto.
Qed.

(** *** The order on size categories that [reuse] applies *)

Lemma category_names_order :
  str_ge "small" "small" = true ∧ str_ge "small" "medium" = true ∧
  str_ge "small" "large" = true ∧
  str_ge "medium" "small" = false ∧ str_ge "medium" "medium" = true ∧
  str_ge "medium" "large" = true ∧
  str_ge "large" "small" = false ∧ str_ge "large" "medium" = false ∧
  str_ge "large" "large" = true.
Proof. by vm_compute. Qed.

(** A bucket holding objects of [size] bytes passes the test of
    [reuse] for [min_size] when it is a "small" bucket, or a "medium"
    one and the request is not "small", or the request is "large". *)
Lemma bucket_matches_sizes (t : string) (size min_size : Z) :
  bucket_matches None (_size_category min_size)
                 (t, _size_category size) = true ↔
  size < 100 ∨ (size < 1000 ∧ 100 ≤ min_size) ∨ 1000 ≤ min_size.
Proof.
  unfold bucket_matches, _size_category.
  destruct (Z.ltb_spec size 100), (Z.ltb_spec size 1000),
    (Z.ltb_spec min_size 100), (Z.ltb_spec min_size 1000);
    try lia;
    match goal with
    | |- ?b = true ↔ _ => let v := eval vm_compute in b in change b with v
    end;
    split; intros; try done; lia.
Qed.

(** *** A new manager, one object *)

Lemma run_allocate_decrease_ref (x : Obj) :
  run [Allocate x; DecreaseRef x] __init__ =
  Blocks (State {[id_of x := 0]} {[id_of x := x]} [] true (getsizeof x)
                [Allocated (id_of x) x 1 (getsizeof x);
                 DecreasedRef (id_of x) 0]).
Proof.
  unfold run, perform, bind, __init__. rewrite allocate_unlocked.
  cbv beta iota delta [ret].
  rewrite decrease_ref_last by apply lookup_insert_eq.
  by rewrite insert_insert_eq, !insert_empty.
Qed.

Lemma run_allocate_drop (x : Obj) :
  run [Allocate x; Drop x] __init__ =
  Returns VNone
    (State ∅ ∅ [((type_name x, _size_category (getsizeof x)), [x])]
           false 0
           [Allocated (id_of x) x 1 (getsizeof x);
            Dropping (id_of x) (getsizeof x) (type_name x)]).
Proof.
  unfold run, perform, bind, __init__. rewrite allocate_unlocked.
  cbv beta iota delta [ret].
  erewrite drop_tracked by apply lookup_insert_eq.
  rewrite !delete_insert_eq, !delete_empty. cbn.
  by replace (0 + getsizeof x - getsizeof x) with 0 by lia.
Qed.

Lemma take_own_bucket (x : Obj) :
  take_candidate None (_size_category (getsizeof x))
    [((type_name x, _size_category (getsizeof x)), [x])] =
  Some (type_name x, x,
        [((type_name x, _size_category (getsizeof x)), [])]).
Proof.
  unfold take_candidate, bucket_matches, _size_category.
  by destruct (getsizeof x <? 100), (getsizeof x <? 1000).
Qed.

Lemma run_allocate_drop_reuse (x : Obj) :
  run [Allocate x; Drop x; Reuse None (getsizeof x)] __init__ =
  Blocks
    (State ∅ ∅ [((type_name x, _size_category (getsizeof x)), [])]
           true 0
           [Allocated (id_of x) x 1 (getsizeof x);
            Dropping (id_of x) (getsizeof x) (type_name x)]).
Proof.
  pose proof (run_allocate_drop x) as Hrun.
  unfold run in *. destruct (perform (Allocate x) __init__); try done.
  rewrite Hrun. unfold perform, bind.
  by rewrite (reuse_candidate _ _ _ _ _ _ _ _ _ _ (take_own_bucket x)).
Qed.

(** C3: a call does not return once it reaches a nested
    [with self.lock].  On a new manager, [decrease_ref] of the only
    reference never returns, and neither does [reuse] once the object
    has been dropped into the pool; after the first, every further
    call of a public method waits as well. *)
Theorem nested_lock_never_returns (x : Obj) :
  returned (run [Allocate x; DecreaseRef x] __init__) = false ∧
  returned (run [Allocate x; Drop x; Reuse None (getsizeof x)] __init__)
    = false ∧
  ∀ c, let stuck := state_of (run [Allocate x; DecreaseRef x] __init__) in
       perform c stuck = Blocks stuck.
Proof.
  rewrite run_allocate_decrease_ref, run_allocate_drop_reuse.
  repeat split. intros c stuck. by apply perform_locked.
Qed.

(** C4: after [allocate(x); decrease_ref(x)] on a new manager the
    call has not returned, and the reference table holds the identity
    of [x] with count 0 while the object table still holds [x]. *)
Theorem zero_count_stays_in_table (x : Obj) :
  let o := run [Allocate x; DecreaseRef x] __init__ in
  returned o = false ∧
  references (state_of o) !! id_of x = Some 0 ∧
  objects (state_of o) !! id_of x = Some x ∧
  lock (state_of o) = true.
Proof.
  intros o. unfold o. rewrite run_allocate_decrease_ref. cbn.
  by rewrite !lookup_singleton_eq.
Qed.

(** C5: [allocate(x); decrease_ref(x)] on a new manager stops inside
    [decrease_ref]: [x] is still in both live tables, the pool is
    empty, and [memory_usage] is the size of [x], not back at 0. *)
Theorem allocate_decrease_ref_reclaims_nothing (x : Obj) :
  ∃ s, run [Allocate x; DecreaseRef x] __init__ = Blocks s ∧
       is_Some (references s !! id_of x) ∧
       is_Some (objects s !! id_of x) ∧
       memory_pool s = [] ∧
       memory_usage s = memory_usage (__init__ : state Obj) + getsizeof x.
Proof.
  eexists. split; [apply run_allocate_decrease_ref |]. cbn.
  by rewrite !lookup_singleton_eq.
Qed.

(** C7: [drop] on an identity that is not tracked returns and leaves
    the whole state as it was, the output included: nothing is
    printed.  So it is on a new manager, and for a second [drop] of an
    object already dropped. *)
Theorem drop_untracked_prints_nothing (x : Obj) :
  drop x __init__ = Returns tt __init__ ∧
  run [Allocate x; Drop x; Drop x] __init__ =
  run [Allocate x; Drop x] __init__.
Proof.
  split; [by apply drop_untracked |].
  pose proof (run_allocate_drop x) as Hrun.
  unfold run in *. destruct (perform (Allocate x) __init__); try done.
  rewrite Hrun. unfold perform, bind. by rewrite drop_untracked.
Qed.

(** ** Further properties of the methods *)

(** [drop] when [references] has the identity and [objects] does not:
    the second [del] raises [KeyError], after the counter and the
    first table were changed. *)
Lemma drop_inconsistent obj refs objs pool usage out n :
  refs !! id_of obj = Some n →
  objs !! id_of obj = None →
  drop obj (State refs objs pool false usage out) =
  Raises (State (delete (id_of obj) refs) objs pool false
                (usage - getsizeof obj)
                (out ++ [Dropping (id_of obj) (getsizeof obj) (type_name obj)])).
Proof. intros Hn Ho. by step_method. Qed.

(** One case per path through the method that [perform] dispatches to,
    each with the outcome of that path in place of the call. *)
Ltac perform_cases :=
  unfold perform, bind;
  lazymatch goal with
  | |- context [allocate _ (State _ _ _ false _ _)] =>
      rewrite allocate_unlocked
  | |- context [increase_ref ?o (State ?r _ _ false _ _)] =>
      let n := fresh "n" in let Hn := fresh "Hn" in
      destruct (r !! id_of o) as [n|] eqn:Hn;
      [ rewrite (increase_ref_tracked _ _ _ _ _ _ _ Hn)
      | rewrite (increase_ref_untracked _ _ _ _ _ _ Hn) ]
  | |- context [decrease_ref ?o (State ?r _ _ false _ _)] =>
      let n := fresh "n" in let Hn := fresh "Hn" in
      let Hne := fresh "Hne" in
      destruct (r !! id_of o) as [n|] eqn:Hn;
      [ destruct (decide (n = 1)) as [->|Hne];
        [ rewrite (decrease_ref_last _ _ _ _ _ _ Hn)
        | rewrite (decrease_ref_shared _ _ _ _ _ _ _ Hn Hne) ]
      | rewrite (decrease_ref_untracked _ _ _ _ _ _ Hn) ]
  | |- context [drop ?o (State ?r ?os _ false _ _)] =>
      let n := fresh "n" in let Hn := fresh "Hn" in
      let o' := fresh "o" in let Ho := fresh "Ho" in
      destruct (r !! id_of o) as [n|] eqn:Hn;
      [ destruct (os !! id_of o) as [o'|] eqn:Ho;
        [ rewrite (drop_tracked _ _ _ _ _ _ _ _ Hn Ho)
        | rewrite (drop_inconsistent _ _ _ _ _ _ _ Hn Ho) ]
      | rewrite (drop_untracked _ _ _ _ _ _ Hn) ]
  | |- context [reuse ?t ?m (State _ _ ?p false _ _)] =>
      let Hc := fresh "Hc" in
      destruct (take_candidate t (_size_category m) p)
        as [[[? ?] ?]|] eqn:Hc;
      [ rewrite (reuse_candidate _ _ _ _ _ _ _ _ _ _ Hc)
      | rewrite (reuse_nothing _ _ _ _ _ _ _ Hc) ]
  | |- context [get_memory_usage (State _ _ _ false _ _)] =>
      rewrite get_memory_usage_unlocked
  end;
  cbv beta iota delta [ret as_none state_of].

(** X1: between calls, a call of a public method never raises (the
    unguarded [del self.objects[obj_id]] of [drop] always finds its
    key); it fails to return exactly when it is a [decrease_ref] of a
    last reference or a [reuse] with a candidate; the lock is free
    again after a call that returns and held after one that did not. *)
Theorem call_outcomes c s :
  reachable s → lock s = false →
  match perform c s with
  | Returns _ s' => nests s c = false ∧ lock s' = false
  | Raises _ => False
  | Blocks s' => nests s c = true ∧ lock s' = true
  end.
Proof.
  intros Hs Hl. apply live_tables_agree in Hs as Hdom.
  destruct s as [refs objs pool l usage out];
    cbn [references objects lock] in *; subst l.
  destruct c; unfold nests; cbn [references memory_pool];
    perform_cases; rewrite ?Hc; try done.
  - split; [by apply Z.eqb_neq | done].
  - by destruct (tracked_has_object _ _ _ _ Hdom Hn) as [? ?Ho'];
      simplify_eq.
Qed.

(** X2: once a call has not returned, no later call does: whatever
    calls follow, the first of them waits for the lock and the state
    stays as the stuck call left it. *)
Theorem blocked_for_good c s stuck (cs : list (call Obj)) :
  perform c s = Blocks stuck → cs ≠ [] → run cs stuck = Blocks stuck.
Proof.
  intros Hblock Hcs.
  assert (lock stuck = true) as Hl.
  { destruct s as [refs objs pool [] usage out].
    - rewrite perform_locked in Hblock by done. by simplify_eq.
    - revert Hblock. destruct c; perform_cases; try done;
        by intros [= <-]. }
  destruct cs as [|c1 [|c2 cs]]; [done | |]; cbn [run];
    by rewrite perform_locked.
Qed.

(** X3: in every reachable state no stored reference count is
    negative, and between calls every stored count is at least 1. *)
Theorem counts_never_negative s (i n : Z) :
  reachable s → references s !! i = Some n →
  0 ≤ n ∧ (lock s = false → 1 ≤ n).
Proof.
  intros Hs. revert i n.
  induction Hs as [|s c Hs IH].
  { intros i n. cbn. by rewrite lookup_empty. }
  destruct s as [refs objs pool [] usage out]; cbn [references lock] in *.
  { by rewrite perform_locked. }
  assert (∀ i n, refs !! i = Some n → 1 ≤ n) as Hpos.
  { intros i n Hi. by apply (IH i n). }
  intros i n. destruct c; perform_cases; cbn [references lock];
    rewrite ?lookup_insert, ?lookup_delete;
    try case_decide; try (intros [= <-]);
    try (intros Hi; apply Hpos in Hi); try done;
    try match goal with Hx : _ !! _ = Some _ |- _ => apply Hpos in Hx end;
    lia.
Qed.

(** X4: a call leaves alone every identity other than that of its own
    argument: the entries of both live tables under any other key are
    what they were; [reuse] and [get_memory_usage] change no entry. *)
Theorem other_identities_untouched c s (i : Z) :
  target c ≠ Some i →
  references (state_of (perform c s)) !! i = references s !! i ∧
  objects (state_of (perform c s)) !! i = objects s !! i.
Proof.
  destruct s as [refs objs pool [] usage out].
  { by rewrite perform_locked. }
  destruct c; cbn [target]; intros Hi; perform_cases;
    cbn [references objects];
    rewrite ?lookup_insert_ne, ?lookup_delete_ne by congruence; done.
Qed.

(** X5: the output is only ever extended, and by at most one line per
    call: what was printed before a call is a prefix of what is
    printed after it. *)
Theorem output_grows_by_at_most_one_line c s :
  ∃ lines,
    printed (state_of (perform c s)) = printed s ++ lines ∧
    (length lines ≤ 1)%nat.
Proof.
  destruct s as [refs objs pool [] usage out].
  { rewrite perform_locked by done. exists []. cbn.
    split; [by rewrite app_nil_r | lia]. }
  destruct c; perform_cases; cbn [printed];
    first [ eexists [_]; split; [reflexivity | cbn; lia]
          | exists []; split; [by rewrite app_nil_r | cbn; lia] ].
Qed.

(** *** The pool: [append] in [drop], the loop and [pop] in [reuse] *)

Lemma pop_snoc (objs : list Obj) (x : Obj) : pop (objs ++ [x]) = Some (objs, x).
Proof.
  induction objs as [|y objs IH]; [done |].
  cbn [app pop]. rewrite IH. by destruct objs.
Qed.

Lemma pop_inv (objs objs' : list Obj) (x : Obj) :
  pop objs = Some (objs', x) → objs = objs' ++ [x].
Proof.
  revert objs'. induction objs as [|y objs IH]; intros objs'; [done |].
  cbn [pop]. destruct objs as [|z objs]; [by intros [= <- <-] |].
  destruct (pop (z :: objs)) as [[rest' w]|]; [| done].
  intros [= <- <-]. by rewrite (IH rest' eq_refl).
Qed.

Lemma pop_none (objs : list Obj) : pop objs = None → objs = [].
Proof.
  destruct objs as [|y objs] using rev_ind; [done |].
  by rewrite pop_snoc.
Qed.

(** X6: the test that [reuse] applies to a bucket, in bytes.  A bucket
    that holds objects of type [t] and size [size] passes for
    [desired_type] and [min_size] exactly when the type is not asked
    for or is [t], and the bucket is "small", or it is "medium" and
    [min_size] is at least 100, or [min_size] is at least 1000. *)
Theorem bucket_test_in_bytes desired_type (t : string) (size min_size : Z) :
  bucket_matches desired_type (_size_category min_size)
                 (t, _size_category size) = true ↔
  (desired_type = None ∨ desired_type = Some t) ∧
  (size < 100 ∨ (size < 1000 ∧ 100 ≤ min_size) ∨ 1000 ≤ min_size).
Proof.
  rewrite <- (bucket_matches_sizes t size min_size).
  destruct desired_type as [name|]; cbn [bucket_matches]; [| tauto].
  rewrite andb_true_iff, bool_decide_eq_true. cbn [andb].
  split; [intros [-> ?]; auto | intros [[[=]|[= ->]] ?]; auto].
Qed.

(** X7: [reuse] takes the most recently dropped object of the first
    bucket, in the order in which the buckets were created, that passes
    the test and is not empty; that bucket loses this one object and
    nothing else in the pool changes. *)
Theorem take_candidate_first_fit desired_type size_category pool
    obj_type reused_obj pool' :
  take_candidate desired_type size_category pool =
    Some (obj_type, reused_obj, pool') ↔
  ∃ before key waiting after,
    pool = before ++ (key, waiting ++ [reused_obj]) :: after ∧
    pool' = before ++ (key, waiting) :: after ∧
    obj_type = fst key ∧
    bucket_matches desired_type size_category key = true ∧
    Forall (λ b, passed_over desired_type size_category b = true) before.
Proof.
  split.
  - revert obj_type reused_obj pool'.
    induction pool as [|[key items] rest IH];
      intros obj_type reused_obj pool'; [done |].
    cbn [take_candidate].
    destruct (bucket_matches desired_type size_category key) eqn:Hm;
      [destruct (pop items) as [[items' x]|] eqn:Hpop |].
    + intros [= <- <- <-]. apply pop_inv in Hpop as ->.
      by exists [], key, items', rest.
    + apply pop_none in Hpop as ->.
      destruct (take_candidate desired_type size_category rest)
        as [[[t o] rest']|]; [| done].
      intros [= <- <- <-].
      destruct (IH _ _ _ eq_refl) as (before & k & os & after & -> & -> & Hrest).
      exists ((key, []) :: before), k, os, after.
      split_and!; try done; try apply Hrest.
      constructor; [| apply Hrest]. unfold passed_over. cbn.
      by rewrite orb_true_r.
    + destruct (take_candidate desired_type size_category rest)
        as [[[t o] rest']|]; [| done].
      intros [= <- <- <-].
      destruct (IH _ _ _ eq_refl) as (before & k & os & after & -> & -> & Hrest).
      exists ((key, items) :: before), k, os, after.
      split_and!; try done; try apply Hrest.
      constructor; [| apply Hrest]. unfold passed_over. cbn.
      by rewrite Hm.
  - intros (before & key & items & after & -> & -> & -> & Hm & Hbefore).
    induction Hbefore as [|[k os] before Hk _ IH].
    + cbn [app take_candidate]. by rewrite Hm, pop_snoc.
    + cbn [app take_candidate]. rewrite IH.
      unfold passed_over in Hk. cbn in Hk.
      destruct (bucket_matches desired_type size_category k); [| done].
      by destruct os.
Qed.

(** X8: [reuse] finds no candidate, prints its "no suitable objects"
    line and returns [None], exactly when every bucket of the pool
    fails the test or is empty. *)
Theorem take_candidate_none desired_type size_category pool :
  take_candidate desired_type size_category pool = None ↔
  Forall (λ b, passed_over desired_type size_category b = true) pool.
Proof.
  induction pool as [|[key items] rest IH]; [by split; [constructor |] |].
  cbn [take_candidate]. rewrite Forall_cons, <- IH.
  unfold passed_over. cbn [fst snd].
  destruct items as [|x items _] using rev_ind; rewrite ?pop_snoc;
    destruct (bucket_matches desired_type size_category key),
      (take_candidate desired_type size_category rest) as [[[t o] rest']|];
    cbn; try (by destruct items); try (split; [done | by intros [_ ?]]);
    try (split; [done | by intros [? _]]);
    split; [done | intros [? _]; by destruct items].
Qed.

Lemma pool_append_keys (key : bucket_key) obj pool :
  (pool_append key obj pool).*1 =
  if decide (key ∈ pool.*1) then pool.*1 else pool.*1 ++ [key].
Proof.
  induction pool as [|[k items] rest IH]; cbn [pool_append fmap list_fmap].
  { by rewrite decide_False by apply not_elem_of_nil. }
  destruct (decide (k = key)) as [->|Hne]; cbn [fmap list_fmap fst].
  - by rewrite decide_True by apply list_elem_of_here.
  - fold (rest.*1). fold ((pool_append key obj rest).*1). rewrite IH.
    destruct (decide (key ∈ rest.*1)) as [Hin|Hout].
    + by rewrite decide_True by by apply list_elem_of_further.
    + rewrite decide_False; [done |].
      rewrite elem_of_cons. intros [->|?]; done.
Qed.

Lemma take_candidate_keys desired_type size_category pool t o pool' :
  take_candidate desired_type size_category pool = Some (t, o, pool') →
  pool'.*1 = pool.*1.
Proof.
  revert t o pool'.
  induction pool as [|[key items] rest IH]; intros t o pool'; [done |].
  cbn [take_candidate].
  assert (match take_candidate desired_type size_category rest with
          | Some (t0, o0, rest') => Some (t0, o0, (key, items) :: rest')
          | None => None
          end = Some (t, o, pool') → pool'.*1 = ((key, items) :: rest).*1)
    as Hskip.
  { destruct (take_candidate desired_type size_category rest)
      as [[[t0 o0] rest']|]; [| done].
    intros [= <- <- <-]. cbn. f_equal. by eapply IH. }
  destruct (bucket_matches desired_type size_category key); [| done].
  destruct (pop items) as [[items' x]|]; [| done].
  by intros [= <- <- <-].
Qed.

Lemma perform_pool_keys c s :
  (memory_pool (state_of (perform c s))).*1 = (memory_pool s).*1 ∨
  ∃ key, (key ∉ ((memory_pool s).*1)) ∧
         (memory_pool (state_of (perform c s))).*1 =
         (memory_pool s).*1 ++ [key].
Proof.
  destruct s as [refs objs pool [] usage out].
  { left. by rewrite perform_locked. }
  destruct c; perform_cases; cbn [memory_pool]; try by left.
  - rewrite pool_append_keys. case_decide; [by left | right; eauto].
  - left. by eapply take_candidate_keys.
Qed.

(** X9: the pool behaves as the dictionary it is.  In every reachable
    state its keys are pairwise distinct, and a call never removes or
    reorders a key: the keys before a call are a prefix of the keys
    after it, so the order in which [reuse] visits the buckets is the
    order in which they were first used. *)
Theorem pool_keys_stable s :
  reachable s →
  NoDup (memory_pool s).*1 ∧
  ∀ c, (memory_pool s).*1 `prefix_of`
       (memory_pool (state_of (perform c s))).*1.
Proof.
  intros Hs. split.
  - induction Hs as [|s c _ IH]; [constructor |].
    destruct (perform_pool_keys c s) as [->|(key & Hkey & ->)]; [done |].
    apply NoDup_app. split_and!; [done | | apply NoDup_singleton].
    intros k Hk ->%list_elem_of_singleton. done.
  - intros c.
    destruct (perform_pool_keys c s) as [->|(key & _ & ->)];
      [done | by apply prefix_app_r].
Qed.

(** X10: when the pool has nothing for a request and an object is
    dropped into a bucket that passes the test of that request, the
    scan of [reuse] takes exactly this object, and the pool is as
    before, up to the bucket now existing (empty) if it did not. *)
Theorem dropped_object_is_taken_back desired_type size_category
    (key : bucket_key) obj pool :
  take_candidate desired_type size_category pool = None →
  bucket_matches desired_type size_category key = true →
  take_candidate desired_type size_category (pool_append key obj pool) =
  Some (fst key, obj,
        if decide (key ∈ pool.*1) then pool else pool ++ [(key, [])]).
Proof.
  intros Hnone Hm.
  induction pool as [|[k items] rest IH].
  { cbn [pool_append take_candidate]. rewrite Hm. cbn.
    by rewrite decide_False by apply not_elem_of_nil. }
  cbn [pool_append]. cbn [take_candidate] in Hnone.
  destruct (decide (k = key)) as [->|Hne].
  - rewrite Hm in Hnone. cbn [take_candidate]. rewrite Hm.
    destruct (pop items) as [[? ?]|] eqn:Hpop; [done |].
    apply pop_none in Hpop as ->. cbn.
    by rewrite decide_True by apply list_elem_of_here.
  - cbn [take_candidate].
    assert (take_candidate desired_type size_category rest = None) as Hrest.
    { destruct (take_candidate desired_type size_category rest)
        as [[[? ?] ?]|]; [| done].
      destruct (bucket_matches desired_type size_category k); [| done].
      by destruct (pop items) as [[? ?]|]. }
    rewrite (IH Hrest).
    assert ((if bucket_matches desired_type size_category k
             then match pop items with
                  | Some (items', reused_obj) =>
                      Some (k.1, reused_obj, (k, items') :: rest)
                  | None => None
                  end
             else None) = None) as Hk.
    { by rewrite Hrest in Hnone. }
    assert (∀ r : option (string * Obj * list (bucket Obj)),
              (if bucket_matches desired_type size_category k
               then match pop items with
                    | Some (items', reused_obj) =>
                        Some (k.1, reused_obj,
                              (k, items') :: pool_append key obj rest)
                    | None => r
                    end
               else r) = r) as ->.
    { intros r. destruct (bucket_matches desired_type size_category k);
        [| done]. by destruct (pop items) as [[? ?]|]. }
    cbn [fmap list_fmap fst]. fold (rest.*1).
    destruct (decide (key ∈ rest.*1)) as [Hin|Hout].
    + by rewrite decide_True by by apply list_elem_of_further.
    + rewrite decide_False; [done |].
      rewrite elem_of_cons. intros [->|?]; done.
Qed.

(** *** Calls in sequence *)

(** X11: between calls, [increase_ref] followed by [decrease_ref] on a
    tracked object returns with both tables, the pool and
    [memory_usage] exactly as before; only the two lines are added to
    the output. *)
Theorem increase_then_decrease_restores obj s n :
  reachable s → lock s = false →
  references s !! id_of obj = Some n →
  run [IncreaseRef obj; DecreaseRef obj] s =
  Returns VNone
    (set_printed (λ out, out ++ [IncreasedRef (id_of obj) (n + 1);
                                 DecreasedRef (id_of obj) n]) s).
Proof.
  intros Hs Hl Hn. pose proof (counts_at_least_one s Hs Hl _ _ Hn) as Hpos.
  destruct s as [refs objs pool l usage out];
    cbn [references lock] in *; subst l.
  unfold run, perform, bind.
  rewrite (increase_ref_tracked _ _ _ _ _ _ _ Hn).
  cbv beta iota delta [ret].
  rewrite (decrease_ref_shared _ _ _ _ _ _ (n + 1))
    by (apply lookup_insert_eq || lia).
  cbv beta iota delta [ret as_none]. unfold set_printed. cbn.
  rewrite insert_insert_eq, <- app_assoc.
  replace (n + 1 - 1) with n by lia. by rewrite insert_id.
Qed.

(** X12: between calls, [allocate] followed by [drop] on an object
    that is not tracked returns with both live tables and
    [memory_usage] as before, and with the object added at the end of
    the bucket of its type name and size category, whether or not the
    pool already holds it. *)
Theorem allocate_then_drop_restores obj s :
  reachable s → lock s = false →
  references s !! id_of obj = None →
  run [Allocate obj; Drop obj] s =
  Returns VNone
    (State (references s) (objects s)
           (pool_append (type_name obj, _size_category (getsizeof obj)) obj
                        (memory_pool s))
           false (memory_usage s)
           (printed s ++ [Allocated (id_of obj) obj 1 (getsizeof obj);
                          Dropping (id_of obj) (getsizeof obj)
                                   (type_name obj)])).
Proof.
  intros Hs Hl Hn. apply live_tables_agree in Hs as Hdom.
  destruct s as [refs objs pool l usage out];
    cbn [references objects lock memory_pool memory_usage printed] in *;
    subst l.
  assert (objs !! id_of obj = None) as Ho.
  { apply (not_elem_of_dom objs). rewrite <- Hdom.
    by apply not_elem_of_dom. }
  unfold run, perform, bind. rewrite allocate_unlocked.
  cbv beta iota delta [ret].
  erewrite drop_tracked by apply lookup_insert_eq.
  cbv beta iota delta [ret as_none].
  rewrite !delete_insert_eq, !delete_id, <- app_assoc by done.
  by replace (usage + getsizeof obj - getsizeof obj) with usage by lia.
Qed.

(** X13: [drop] does not look at the reference count.  Between calls,
    [drop] on a tracked object with any count removes it from both
    tables, takes its size off [memory_usage] and pools it; a holder
    that calls [decrease_ref] afterwards is told the object is not
    allocated. *)
Theorem drop_ignores_the_count obj s n :
  reachable s → lock s = false →
  references s !! id_of obj = Some n →
  run [Drop obj; DecreaseRef obj] s =
  Returns VNone
    (State (delete (id_of obj) (references s))
           (delete (id_of obj) (objects s))
           (pool_append (type_name obj, _size_category (getsizeof obj)) obj
                        (memory_pool s))
           false (memory_usage s - getsizeof obj)
           (printed s ++ [Dropping (id_of obj) (getsizeof obj)
                                   (type_name obj);
                          NotAllocated obj])).
Proof.
  intros Hs Hl Hn. apply live_tables_agree in Hs as Hdom.
  destruct s as [refs objs pool l usage out];
    cbn [references objects lock memory_pool memory_usage printed] in *;
    subst l.
  destruct (tracked_has_object _ _ _ _ Hdom Hn) as [o Ho].
  unfold run, perform, bind.
  rewrite (drop_tracked _ _ _ _ _ _ _ _ Hn Ho).
  cbv beta iota delta [ret].
  rewrite decrease_ref_untracked by apply lookup_delete_eq.
  cbv beta iota delta [ret as_none]. by rewrite <- app_assoc.
Qed.

(** X14: the usage example at the end of the file does not run to its
    end.  For any object [obj1] it stops inside the second
    [decrease_ref]: four lines are printed, the count of [obj1] is 0,
    [obj1] is still in the object table, the pool is empty,
    [memory_usage] is the size of [obj1], and the [get_memory_usage]
    and [reuse] calls that follow are never made. *)
Theorem usage_example_stops (obj1 : Obj) :
  run (usage_example obj1) __init__ =
  Blocks (State {[id_of obj1 := 0]} {[id_of obj1 := obj1]} [] true
                (getsizeof obj1)
                [Allocated (id_of obj1) obj1 1 (getsizeof obj1);
                 IncreasedRef (id_of obj1) 2;
                 DecreasedRef (id_of obj1) 1;
                 DecreasedRef (id_of obj1) 0]).
Proof.
  unfold usage_example, run, perform, bind, __init__.
  rewrite allocate_unlocked. cbv beta iota delta [ret].
  rewrite (increase_ref_tracked _ _ _ _ _ _ 1) by apply lookup_insert_eq.
  cbv beta iota delta [ret].
  rewrite (decrease_ref_shared _ _ _ _ _ _ 2)
    by (apply lookup_insert_eq || done).
  cbv beta iota delta [ret].
  rewrite decrease_ref_last by apply lookup_insert_eq.
  by rewrite !insert_insert_eq, !insert_empty.
Qed.

(** *** The counter without the restriction on [allocate] *)

Lemma live_size_nonneg objs :
  (∀ o : Obj, 0 ≤ getsizeof o) → 0 ≤ live_size objs.
Proof.
  intros Hsize. induction objs as [|i o objs Hi _ IH] using map_first_key_ind.
  - unfold live_size. by rewrite map_fold_empty.
  - rewrite live_size_insert by done. specialize (Hsize o). lia.
Qed.

Lemma perform_never_undercounts c s :
  (∀ o1 o2 : Obj, id_of o1 = id_of o2 → o1 = o2) →
  (∀ o : Obj, 0 ≤ getsizeof o) →
  dom (references s) = dom (objects s) →
  (∀ (i : Z) o, objects s !! i = Some o → id_of o = i) →
  live_size (objects s) ≤ memory_usage s →
  (∀ (i : Z) o, objects (state_of (perform c s)) !! i = Some o →
                id_of o = i) ∧
  live_size (objects (state_of (perform c s))) ≤
  memory_usage (state_of (perform c s)).
Proof.
  intros Hinj Hsize Hdom Hkey Hle.
  destruct s as [refs objs pool [] usage out];
    cbn [references objects memory_usage] in *.
  { by rewrite perform_locked. }
  destruct c as [obj|obj|obj|obj|desired_type min_size|];
    perform_cases; cbn [objects memory_usage]; try done.
  - split.
    + intros i o. rewrite lookup_insert. case_decide; naive_solver.
    + destruct (objs !! id_of obj) as [o|] eqn:Ho.
      * assert (o = obj) as -> by (apply Hinj; eauto).
        rewrite insert_id by done. specialize (Hsize obj). lia.
      * rewrite live_size_insert by done. lia.
  - assert (o = obj) as -> by (apply Hinj; eauto). split.
    + intros i o'. rewrite lookup_delete. case_decide; naive_solver.
    + rewrite (live_size_delete objs _ _ Ho) in Hle. lia.
  - by destruct (tracked_has_object _ _ _ _ Hdom Hn) as [? ?]; simplify_eq.
Qed.

(** X15: whatever the calls, repeated [allocate] of a live object
    included: with identities unique per object and sizes not
    negative, [memory_usage] is never below the total size of the live
    objects, and so never negative. *)
Theorem memory_usage_never_undercounts s :
  (∀ o1 o2 : Obj, id_of o1 = id_of o2 → o1 = o2) →
  (∀ o : Obj, 0 ≤ getsizeof o) →
  reachable s →
  0 ≤ live_size (objects s) ≤ memory_usage s.
Proof.
  intros Hinj Hsize Hs. split; [by apply live_size_nonneg |].
  cut ((∀ (i : Z) o, objects s !! i = Some o → id_of o = i) ∧
       live_size (objects s) ≤ memory_usage s); [by intros [_ ?] |].
  induction Hs as [|s c Hs [IHkey IHle]].
  - split; [intros i o; cbn; by rewrite lookup_empty |].
    cbn. unfold live_size. by rewrite map_fold_empty.
  - apply perform_never_undercounts; auto using live_tables_agree.
Qed.

Lemma reachable_fresh_accounted s :
  (∀ o1 o2 : Obj, id_of o1 = id_of o2 → o1 = o2) →
  reachable_fresh s → accounted s.
Proof.
  intros Hinj. induction 1 as [|s c _ IH Hfresh];
    [| by apply perform_accounted].
  split; [by cbn; rewrite !dom_empty_L | split].
  - intros i o. cbn. by rewrite lookup_empty.
  - cbn. unfold live_size. by rewrite map_fold_empty.
Qed.

(** X16: [get_memory_usage] changes nothing but the output, and, as
    long as [allocate] was never called on a live identity, the number
    it prints and returns is the total size of the live objects. *)
Theorem get_memory_usage_reports_live_size s :
  (∀ o1 o2 : Obj, id_of o1 = id_of o2 → o1 = o2) →
  reachable_fresh s → lock s = false →
  get_memory_usage s =
  Returns (live_size (objects s))
          (set_printed (λ out, out ++ [CurrentUsage (live_size (objects s))])
                       s).
Proof.
  intros Hinj Hs Hl.
  destruct (reachable_fresh_accounted s Hinj Hs) as (_ & _ & <-).
  destruct s as [refs objs pool l usage out]; cbn [lock] in Hl; subst l.
  by rewrite get_memory_usage_unlocked.
Qed.

End Theory.

(** ** The concrete heap *)

Import Demo.

Lemma demo_identities_unique (o1 o2 : obj) : id_of o1 = id_of o2 → o1 = o2.
Proof. by destruct o1, o2. Qed.

(** C1: [reuse] compares the names of the size categories as strings,
    and "large" < "medium" < "small".  With the 232-byte dict (a
    "medium" object of type "dict") dropped into the pool,
    [reuse(dict, 50)] leaves it there, prints the "no suitable objects"
    line and returns [None]; a "large" bucket does not pass the test
    for [min_size = 50], and a "small" bucket passes it for
    [min_size = 5000]. *)
Theorem reuse_orders_categories_by_name :
  run [Allocate example_dict; Drop example_dict; Reuse (Some "dict") 50]
      __init__ =
  Returns VNone
    (State ∅ ∅ [(("dict", "medium"), [example_dict])] false 0
           [Allocated 4302 example_dict 1 232; Dropping 4302 232 "dict";
            NoSuitable]) ∧
  bucket_matches (Some "list") (_size_category 50) ("list", "large") = false ∧
  bucket_matches (Some "dict") (_size_category 5000) ("dict", "small") = true.
Proof. by vm_compute. Qed.

(** C2, as stated, fails: after [allocate] twice on the empty dict the
    counter is 128 while the one object stored is 64 bytes. *)
Lemma double_allocate_counts_twice :
  let s := state_of (perform (Allocate empty_dict)
             (state_of (perform (Allocate empty_dict) __init__))) in
  reachable s ∧ memory_usage s = 128 ∧ live_size (objects s) = 64.
Proof.
  intros s. split; [do 2 apply reachable_call; apply reachable_init |].
  by vm_compute.
Qed.

(** The accounting invariant on the heap above, after one allocation
    and the drop of the same object. *)
Lemma memory_usage_is_live_size_witness :
  let s := state_of (perform (Drop example_dict)
             (state_of (perform (Allocate example_dict) __init__))) in
  reachable_fresh s ∧ memory_usage s = live_size (objects s).
Proof.
  intros s.
  assert (reachable_fresh s) as Hs.
  { apply reachable_fresh_call; [| exact I].
    apply reachable_fresh_call; [apply reachable_fresh_init | reflexivity]. }
  split; [exact Hs |].
  exact (memory_usage_is_live_size s demo_identities_unique Hs).
Defined.

(** The two tables after one allocation. *)
Lemma live_tables_same_identities_witness :
  let s := state_of (perform (Allocate example_dict) __init__) in
  dom (references s) = dom (objects s).
Proof.
  intros s.
  exact (proj1 (live_tables_same_identities s
                  (reachable_call _ _ reachable_init))).
Defined.

(** C8: three calls that do not end with their one line printed.
    [drop] of an untracked object returns with nothing printed (the
    guard without an [else], as in C7).  [decrease_ref] of the only
    reference prints its line and then never returns, and [reuse] with
    a candidate in the pool never returns and prints nothing (the
    nested [with self.lock], as in C3). *)
Theorem calls_without_their_one_line :
  perform (Drop empty_dict) __init__ = Returns VNone __init__ ∧
  (let o := run [Allocate example_dict; DecreaseRef example_dict] __init__ in
   returned o = false ∧
   printed (state_of o) =
     [Allocated 4302 example_dict 1 232; DecreasedRef 4302 0]) ∧
  (let o := run [Allocate empty_dict; Drop empty_dict;
                 Reuse (Some "dict") 50] __init__ in
   returned o = false ∧
   printed (state_of o) =
     [Allocated 4301 empty_dict 1 64; Dropping 4301 64 "dict"]).
Proof. by vm_compute. Qed.

(** The first [allocate] on a new manager prints its one line. *)
Lemma one_line_per_plain_call_witness :
  ∃ v s' line,
    perform (Allocate empty_dict) __init__ = Returns v s' ∧
    printed s' = printed (__init__ : state obj) ++ [line].
Proof.
  exact (one_line_per_plain_call (Allocate empty_dict) __init__
           reachable_init eq_refl eq_refl eq_refl).
Defined.

(** Both guards on a new manager, where nothing is tracked. *)
Lemma ref_calls_on_untracked_object_witness :
  increase_ref empty_dict __init__ =
    Returns tt (set_printed (λ out, out ++ [NotAllocated empty_dict]) __init__) ∧
  decrease_ref empty_dict __init__ =
    Returns tt (set_printed (λ out, out ++ [NotAllocated empty_dict]) __init__).
Proof.
  exact (ref_calls_on_untracked_object empty_dict __init__ eq_refl eq_refl).
Defined.

(** A count of 2 falls back to 1, and 64 bytes are counted twice. *)
Lemma allocate_again_resets_count_witness :
  let s := state_of (run [Allocate empty_dict; IncreaseRef empty_dict]
                         __init__) in
  references s !! 4301 = Some 2 ∧
  ∃ s', allocate empty_dict s = Returns tt s' ∧
        references s' !! 4301 = Some 1 ∧
        memory_usage s' = 128.
Proof.
  intros s. split; [by vm_compute |].
  destruct (allocate_again_resets_count empty_dict s 2 empty_dict)
    as (s' & Hrun & _ & Hcount & _ & _ & _ & _ & Husage);
    [by vm_compute.. |].
  exists s'. repeat split; [exact Hrun | exact Hcount |].
  rewrite Husage. by vm_compute.
Defined.

(** ** The further properties on the concrete heap *)

Lemma demo_sizes_nonnegative (o : obj) : 0 ≤ getsizeof o.
Proof. by destruct o. Qed.

(** The first [allocate] on a new manager returns and frees the lock. *)
Lemma call_outcomes_witness :
  match perform (Allocate empty_dict) __init__ with
  | Returns _ s' =>
      nests __init__ (Allocate empty_dict) = false ∧ lock s' = false
  | Raises _ => False
  | Blocks s' =>
      nests __init__ (Allocate empty_dict) = true ∧ lock s' = true
  end.
Proof.
  exact (call_outcomes (Allocate empty_dict) __init__ reachable_init eq_refl).
Defined.

(** After the stuck [decrease_ref], [get_memory_usage] waits too. *)
Lemma blocked_for_good_witness :
  let s := state_of (perform (Allocate example_dict) __init__) in
  let stuck := state_of (perform (DecreaseRef example_dict) s) in
  run [GetMemoryUsage] stuck = Blocks stuck.
Proof.
  intros s stuck.
  apply (blocked_for_good (DecreaseRef example_dict) s stuck);
    [by vm_compute | done].
Defined.

(** The count of a freshly allocated object. *)
Lemma counts_never_negative_witness :
  let s := state_of (perform (Allocate empty_dict) __init__) in
  0 ≤ 1 ∧ (lock s = false → 1 ≤ 1).
Proof.
  intros s. apply (counts_never_negative s 4301 1);
    [apply reachable_call, reachable_init | by vm_compute].
Defined.

(** Dropping an untracked object leaves the tracked one alone. *)
Lemma other_identities_untouched_witness :
  let s := state_of (perform (Allocate example_dict) __init__) in
  references (state_of (perform (Drop empty_dict) s)) !! 4302 =
    references s !! 4302 ∧
  objects (state_of (perform (Drop empty_dict) s)) !! 4302 =
    objects s !! 4302.
Proof.
  intros s. by apply (other_identities_untouched (Drop empty_dict) s 4302).
Defined.

(** The keys of the pool after one drop. *)
Lemma pool_keys_stable_witness :
  let s := state_of (perform (Drop empty_dict)
             (state_of (perform (Allocate empty_dict) __init__))) in
  NoDup (memory_pool s).*1 ∧
  ∀ c, (memory_pool s).*1 `prefix_of`
       (memory_pool (state_of (perform c s))).*1.
Proof.
  intros s. apply (pool_keys_stable s).
  do 2 apply reachable_call. apply reachable_init.
Defined.

(** An empty pool, one drop of the empty dict, a request for a dict. *)
Lemma dropped_object_is_taken_back_witness :
  take_candidate (Some "dict") "small"
    (pool_append ("dict", "small") empty_dict []) =
  Some ("dict", empty_dict, [(("dict", "small"), [])]).
Proof.
  exact (dropped_object_is_taken_back (Some "dict") "small"
           ("dict", "small") empty_dict [] eq_refl eq_refl).
Defined.

(** One more reference and one less, on a count of 1. *)
Lemma increase_then_decrease_restores_witness :
  let s := state_of (perform (Allocate empty_dict) __init__) in
  run [IncreaseRef empty_dict; DecreaseRef empty_dict] s =
  Returns VNone
    (set_printed (λ out, out ++ [IncreasedRef 4301 2; DecreasedRef 4301 1]) s).
Proof.
  intros s.
  exact (increase_then_decrease_restores empty_dict s 1
           (reachable_call _ _ reachable_init) eq_refl eq_refl).
Defined.

(** [allocate] and [drop] of the empty dict on a new manager. *)
Lemma allocate_then_drop_restores_witness :
  run [Allocate empty_dict; Drop empty_dict] __init__ =
  Returns VNone
    (State ∅ ∅ [(("dict", "small"), [empty_dict])] false 0
           [Allocated 4301 empty_dict 1 64; Dropping 4301 64 "dict"]).
Proof.
  exact (allocate_then_drop_restores empty_dict __init__
           reachable_init eq_refl eq_refl).
Defined.

(** A forced [drop] at count 2. *)
Lemma drop_ignores_the_count_witness :
  let s := state_of (perform (IncreaseRef empty_dict)
             (state_of (perform (Allocate empty_dict) __init__))) in
  references s !! 4301 = Some 2 ∧
  ∃ s', run [Drop empty_dict; DecreaseRef empty_dict] s = Returns VNone s' ∧
        references s' !! 4301 = None ∧ memory_usage s' = 0.
Proof.
  intros s. split; [by vm_compute |].
  eexists. split.
  - apply (drop_ignores_the_count empty_dict s 2);
      [do 2 apply reachable_call; apply reachable_init
      | done | by vm_compute].
  - by vm_compute.
Defined.

(** The counter after a double [allocate]: above the live size. *)
Lemma memory_usage_never_undercounts_witness :
  let s := state_of (perform (Allocate empty_dict)
             (state_of (perform (Allocate empty_dict) __init__))) in
  0 ≤ live_size (objects s) ≤ memory_usage s.
Proof.
  intros s.
  apply (memory_usage_never_undercounts s demo_identities_unique
           demo_sizes_nonnegative).
  do 2 apply reachable_call. apply reachable_init.
Defined.

(** What [get_memory_usage] returns with the example dict live. *)
Lemma get_memory_usage_reports_live_size_witness :
  let s := state_of (perform (Allocate example_dict) __init__) in
  live_size (objects s) = 232 ∧
  get_memory_usage s =
  Returns (live_size (objects s))
          (set_printed (λ out, out ++ [CurrentUsage (live_size (objects s))])
                       s).
Proof.
  intros s. split; [by vm_compute |].
  apply (get_memory_usage_reports_live_size s demo_identities_unique);
    [| done].
  apply (reachable_fresh_call __init__ (Allocate example_dict));
    [apply reachable_fresh_init | reflexivity].
Defined.

(** * Properties of the earlier manager (src/memory_manager.py) *)

Import MemoryManager.

Section EarlierTheory.
Context {Obj Cls : Type} `{PyObject Obj} `{PyInstance Obj Cls}.
Implicit Types (obj : Obj) (s : state Obj) (c : call Obj Cls).
Implicit Types (refs : gmap Z Z) (objs : gmap Z Obj) (pool : list (Z * Obj)).
Implicit Types (usage : Z) (out : list (LogMsg Obj)).

Ltac step_earlier :=
  repeat progress (
    unfold allocate, increase_ref, decrease_ref, drop, reuse,
      get_memory_usage, with_lock, bind, gets, modify, print, ret,
      get_reference, del_references, del_objects, raise_KeyError,
      set_references, set_objects, set_memory_pool, set_lock,
      set_memory_usage, set_printed;
    cbn [references objects memory_pool lock memory_usage printed];
    rewrite ?lookup_insert_eq;
    repeat match goal with
           | Hl : ?m !! ?k = _ |- context [?m !! ?k] => rewrite Hl
           | Hl : lock ?s = _ |- context [lock ?s] => rewrite Hl
           | Hl : take_entry ?t ?z ?p = _
             |- context [take_entry ?t ?z ?p] => rewrite Hl
           end).

Lemma earlier_allocate obj refs objs pool usage out :
  allocate obj (State refs objs pool false usage out) =
  Returns tt (State (<[id_of obj := 1]> refs) (<[id_of obj := obj]> objs)
                    pool false (usage + getsizeof obj)
                    (out ++ [Allocated (id_of obj) obj 1 (getsizeof obj)])).
Proof. by step_earlier. Qed.

Lemma earlier_increase_tracked obj refs objs pool usage out n :
  refs !! id_of obj = Some n →
  increase_ref obj (State refs objs pool false usage out) =
  Returns tt (State (<[id_of obj := n + 1]> refs) objs pool false usage
                    (out ++ [IncreasedRef (id_of obj) (n + 1)])).
Proof. intros Hn. by step_earlier. Qed.

Lemma earlier_increase_untracked obj refs objs pool usage out :
  refs !! id_of obj = None →
  increase_ref obj (State refs objs pool false usage out) =
  Returns tt (State refs objs pool false usage (out ++ [NotAllocated obj])).
Proof. intros Hn. by step_earlier. Qed.

Lemma earlier_drop_tracked obj refs objs pool usage out n o :
  refs !! id_of obj = Some n →
  objs !! id_of obj = Some o →
  drop obj (State refs objs pool false usage out) =
  Returns tt
    (State (delete (id_of obj) refs) (delete (id_of obj) objs)
           (pool ++ [(getsizeof obj, obj)])
           false (usage - getsizeof obj)
           (out ++ [Dropping (id_of obj) (getsizeof obj)])).
Proof. intros Hn Ho. by step_earlier. Qed.

Lemma earlier_drop_inconsistent obj refs objs pool usage out n :
  refs !! id_of obj = Some n →
  objs !! id_of obj = None →
  drop obj (State refs objs pool false usage out) =
  Raises (State (delete (id_of obj) refs) objs pool false
                (usage - getsizeof obj)
                (out ++ [Dropping (id_of obj) (getsizeof obj)])).
Proof. intros Hn Ho. by step_earlier. Qed.

Lemma earlier_drop_untracked obj refs objs pool usage out :
  refs !! id_of obj = None →
  drop obj (State refs objs pool false usage out) =
  Returns tt (State refs objs pool false usage out).
Proof. intros Hn. by step_earlier. Qed.

Lemma earlier_decrease_untracked obj refs objs pool usage out :
  refs !! id_of obj = None →
  decrease_ref obj (State refs objs pool false usage out) =
  Returns tt (State refs objs pool false usage (out ++ [NotAllocated obj])).
Proof. intros Hn. by step_earlier. Qed.

Lemma earlier_decrease_shared obj refs objs pool usage out n :
  refs !! id_of obj = Some n → n ≠ 1 →
  decrease_ref obj (State refs objs pool false usage out) =
  Returns tt (State (<[id_of obj := n - 1]> refs) objs pool false usage
                    (out ++ [DecreasedRef (id_of obj) (n - 1)])).
Proof.
  intros Hn Hne. step_earlier.
  destruct (Z.eqb_spec (n - 1) 0) as [Hz|_]; [lia | by step_earlier].
Qed.

Lemma earlier_decrease_last obj refs objs pool usage out :
  refs !! id_of obj = Some 1 →
  decrease_ref obj (State refs objs pool false usage out) =
  Blocks (State (<[id_of obj := 0]> refs) objs pool true usage
                (out ++ [DecreasedRef (id_of obj) 0])).
Proof. intros Hn. by step_earlier. Qed.

Lemma earlier_reuse_nothing desired_type min_size refs objs pool usage out :
  take_entry desired_type min_size pool = None →
  reuse desired_type min_size (State refs objs pool false usage out) =
  Returns None (State refs objs pool false usage (out ++ [NoSuitable])).
Proof. intros Hc. by step_earlier. Qed.

Lemma earlier_reuse_entry desired_type min_size refs objs pool usage out
    obj_size obj pool' :
  take_entry desired_type min_size pool = Some (obj_size, obj, pool') →
  reuse desired_type min_size (State refs objs pool false usage out) =
  Blocks (State refs objs pool' true usage out).
Proof. intros Hc. by step_earlier. Qed.

Lemma earlier_get_memory_usage refs objs pool usage out :
  get_memory_usage (State refs objs pool false usage out) =
  Returns usage (State refs objs pool false usage (out ++ [CurrentUsage usage])).
Proof. by step_earlier. Qed.

Lemma earlier_perform_locked c s : lock s = true → perform c s = Blocks s.
Proof. intros Hl. destruct c; unfold perform; by step_earlier. Qed.

Ltac earlier_cases :=
  unfold perform, bind;
  lazymatch goal with
  | |- context [allocate _ (State _ _ _ false _ _)] =>
      rewrite earlier_allocate
  | |- context [increase_ref ?o (State ?r _ _ false _ _)] =>
      let n := fresh "n" in let Hn := fresh "Hn" in
      destruct (r !! id_of o) as [n|] eqn:Hn;
      [ rewrite (earlier_increase_tracked _ _ _ _ _ _ _ Hn)
      | rewrite (earlier_increase_untracked _ _ _ _ _ _ Hn) ]
  | |- context [decrease_ref ?o (State ?r _ _ false _ _)] =>
      let n := fresh "n" in let Hn := fresh "Hn" in
      let Hne := fresh "Hne" in
      destruct (r !! id_of o) as [n|] eqn:Hn;
      [ destruct (decide (n = 1)) as [->|Hne];
        [ rewrite (earlier_decrease_last _ _ _ _ _ _ Hn)
        | rewrite (earlier_decrease_shared _ _ _ _ _ _ _ Hn Hne) ]
      | rewrite (earlier_decrease_untracked _ _ _ _ _ _ Hn) ]
  | |- context [drop ?o (State ?r ?os _ false _ _)] =>
      let n := fresh "n" in let Hn := fresh "Hn" in
      let o' := fresh "o" in let Ho := fresh "Ho" in
      destruct (r !! id_of o) as [n|] eqn:Hn;
      [ destruct (os !! id_of o) as [o'|] eqn:Ho;
        [ rewrite (earlier_drop_tracked _ _ _ _ _ _ _ _ Hn Ho)
        | rewrite (earlier_drop_inconsistent _ _ _ _ _ _ _ Hn Ho) ]
      | rewrite (earlier_drop_untracked _ _ _ _ _ _ Hn) ]
  | |- context [reuse ?t ?m (State _ _ ?p false _ _)] =>
      let Hc := fresh "Hc" in
      destruct (take_entry t m p) as [[[? ?] ?]|] eqn:Hc;
      [ rewrite (earlier_reuse_entry _ _ _ _ _ _ _ _ _ _ Hc)
      | rewrite (earlier_reuse_nothing _ _ _ _ _ _ _ Hc) ]
  | |- context [get_memory_usage (State _ _ _ false _ _)] =>
      rewrite earlier_get_memory_usage
  end;
  cbv beta iota delta [ret as_none state_of].

Lemma earlier_perform_same_identities c s :
  dom (references s) = dom (objects s) →
  dom (references (state_of (perform c s))) =
  dom (objects (state_of (perform c s))).
Proof.
  destruct s as [refs objs pool [] usage out]; cbn [references objects];
    intros Hdom.
  { by rewrite earlier_perform_locked. }
  destruct c; earlier_cases; cbn [references objects]; try done;
    first [ by rewrite dom_insert_lookup_L by eauto
          | by rewrite !dom_insert_L, Hdom
          | by rewrite !dom_delete_L, Hdom
          | idtac ].
  exfalso. apply (elem_of_dom_2 refs) in Hn.
  apply (not_elem_of_dom_2 objs) in Ho. by rewrite Hdom in Hn.
Qed.

Lemma earlier_tables_agree s :
  reachable s → dom (references s) = dom (objects s).
Proof.
  induction 1 as [|s c _ IH]; [done |].
  by apply earlier_perform_same_identities.
Qed.

(** X17: in the earlier manager too, in every reachable state the
    reference table and the object table have the same keys, and a
    call changes whether an identity is a key of one exactly when it
    changes whether it is a key of the other. *)
Theorem earlier_tables_same_identities s :
  reachable s →
  dom (references s) = dom (objects s) ∧
  ∀ c (i : Z),
    let s' := state_of (perform c s) in
    (i ∈ dom (references s') ↔ i ∈ dom (references s)) ↔
    (i ∈ dom (objects s') ↔ i ∈ dom (objects s)).
Proof.
  intros Hs. apply earlier_tables_agree in Hs as Hdom.
  split; [done |]. intros c i s'.
  pose proof (earlier_perform_same_identities c s Hdom) as Hdom'.
  fold s' in Hdom'. by rewrite Hdom, Hdom'.
Qed.

(** X18: the earlier manager has the same lock.  Between calls, a
    call never raises; it fails to return exactly when it is a
    [decrease_ref] of a last reference or a [reuse] with a matching
    entry; the lock is free after a call that returns and held after
    one that did not. *)
Theorem earlier_call_outcomes c s :
  reachable s → lock s = false →
  match perform c s with
  | Returns _ s' => nests s c = false ∧ lock s' = false
  | Raises _ => False
  | Blocks s' => nests s c = true ∧ lock s' = true
  end.
Proof.
  intros Hs Hl. apply earlier_tables_agree in Hs as Hdom.
  destruct s as [refs objs pool l usage out];
    cbn [references objects lock] in *; subst l.
  destruct c; unfold nests; cbn [references memory_pool];
    earlier_cases; rewrite ?Hc; try done.
  - split; [by apply Z.eqb_neq | done].
  - apply (elem_of_dom_2 refs) in Hn.
    apply (not_elem_of_dom_2 objs) in Ho. by rewrite Hdom in Hn.
Qed.

(** X19: [reuse] of the earlier manager takes the oldest pooled entry
    whose object is an instance of the class asked for (if any) and
    whose recorded size is at least [min_size], and removes just that
    entry; it finds nothing exactly when no entry passes. *)
Theorem take_entry_first_fit desired_type min_size pool :
  (∀ obj_size obj pool',
     take_entry desired_type min_size pool = Some (obj_size, obj, pool') ↔
     ∃ before after,
       pool = before ++ (obj_size, obj) :: after ∧
       pool' = before ++ after ∧
       (match desired_type with
        | None => True
        | Some cls => isinstance obj cls = true
        end ∧ min_size ≤ obj_size) ∧
       Forall (λ e, entry_matches desired_type min_size e = false) before) ∧
  (take_entry desired_type min_size pool = None ↔
   Forall (λ e, entry_matches desired_type min_size e = false) pool).
Proof.
  assert (∀ obj_size obj,
            entry_matches desired_type min_size (obj_size, obj) = true ↔
            match desired_type with
            | None => True
            | Some cls => isinstance obj cls = true
            end ∧ min_size ≤ obj_size) as Htest.
  { intros obj_size obj. unfold entry_matches.
    rewrite andb_true_iff, Z.geb_le.
    destruct desired_type; [done | by split; intros [_ ?]]. }
  split.
  - intros obj_size obj pool'.
    setoid_rewrite <- (Htest obj_size obj). clear Htest. split.
    + revert obj_size obj pool'.
      induction pool as [|[sz o] rest IH]; intros obj_size obj pool';
        [done |].
      cbn [take_entry].
      destruct (entry_matches desired_type min_size (sz, o)) eqn:Hm.
      * intros [= <- <- <-]. by exists [], rest.
      * destruct (take_entry desired_type min_size rest)
          as [[[sz' o'] rest']|]; [| done].
        intros [= <- <- <-].
        destruct (IH _ _ _ eq_refl) as (before & after & -> & -> & ? & ?).
        exists ((sz, o) :: before), after. split_and!; try done.
        by constructor.
    + intros (before & after & -> & -> & Hm & Hbefore).
      induction Hbefore as [|e before He _ IH].
      * cbn [app take_entry]. by rewrite Hm.
      * cbn [app take_entry]. by rewrite He, IH.
  - clear Htest. induction pool as [|e rest IH].
    { by split; [constructor |]. }
    cbn [take_entry]. rewrite Forall_cons, <- IH.
    destruct (entry_matches desired_type min_size e).
    + split; [done | by intros [? _]].
    + destruct (take_entry desired_type min_size rest) as [[[? ?] ?]|];
        [split; [done | by intros [_ ?]] | done].
Qed.

(** X20: entries are served in the order of the drops.  A later drop
    never changes which pooled object [reuse] takes; and when nothing
    passed before, a dropped entry that passes is the one taken, which
    leaves the pool as it was. *)
Theorem older_entries_first desired_type min_size pool (entry : Z * Obj) :
  match take_entry desired_type min_size pool with
  | Some (obj_size, obj, pool') =>
      take_entry desired_type min_size (pool ++ [entry]) =
      Some (obj_size, obj, pool' ++ [entry])
  | None =>
      entry_matches desired_type min_size entry = true →
      take_entry desired_type min_size (pool ++ [entry]) =
      Some (fst entry, snd entry, pool)
  end.
Proof.
  induction pool as [|e rest IH]; cbn [app take_entry].
  { by intros ->. }
  destruct (entry_matches desired_type min_size e); [done |].
  destruct (take_entry desired_type min_size rest) as [[[sz o] rest']|].
  - by rewrite IH.
  - intros Hm. by rewrite (IH Hm).
Qed.

(** X21: between calls, [allocate] followed by [drop] on an untracked
    object returns with both tables and [memory_usage] as before and
    with the pair of the object and its size added at the end of the
    pool. *)
Theorem earlier_allocate_then_drop obj s :
  reachable s → lock s = false →
  references s !! id_of obj = None →
  run [Allocate obj; Drop obj] s =
  Returns VNone
    (State (references s) (objects s)
           (memory_pool s ++ [(getsizeof obj, obj)])
           false (memory_usage s)
           (printed s ++ [Allocated (id_of obj) obj 1 (getsizeof obj);
                          Dropping (id_of obj) (getsizeof obj)])).
Proof.
  intros Hs Hl Hn. apply earlier_tables_agree in Hs as Hdom.
  destruct s as [refs objs pool l usage out];
    cbn [references objects lock memory_pool memory_usage printed] in *;
    subst l.
  assert (objs !! id_of obj = None) as Ho.
  { apply (not_elem_of_dom objs). rewrite <- Hdom.
    by apply not_elem_of_dom. }
  unfold run, perform, bind. rewrite earlier_allocate.
  cbv beta iota delta [ret].
  erewrite earlier_drop_tracked by apply lookup_insert_eq.
  cbv beta iota delta [ret as_none].
  rewrite !delete_insert_eq, !delete_id, <- app_assoc by done.
  by replace (usage + getsizeof obj - getsizeof obj) with usage by lia.
Qed.

(** X22: the usage example of the earlier file stops at the same
    place, inside its second [decrease_ref], after four lines. *)
Theorem earlier_usage_example_stops (obj1 : Obj) (dict : Cls) :
  run (usage_example obj1 dict) __init__ =
  Blocks (State {[id_of obj1 := 0]} {[id_of obj1 := obj1]} [] true
                (getsizeof obj1)
                [Allocated (id_of obj1) obj1 1 (getsizeof obj1);
                 IncreasedRef (id_of obj1) 2;
                 DecreasedRef (id_of obj1) 1;
                 DecreasedRef (id_of obj1) 0]).
Proof.
  unfold usage_example, run, perform, bind, __init__.
  rewrite earlier_allocate. cbv beta iota delta [ret].
  rewrite (earlier_increase_tracked _ _ _ _ _ _ 1) by apply lookup_insert_eq.
  cbv beta iota delta [ret].
  rewrite (earlier_decrease_shared _ _ _ _ _ _ 2)
    by (apply lookup_insert_eq || done).
  cbv beta iota delta [ret].
  rewrite earlier_decrease_last by apply lookup_insert_eq.
  by rewrite !insert_insert_eq, !insert_empty.
Qed.

End EarlierTheory.

Import Demo.

(** The state of the earlier manager after one allocation. *)
Lemma earlier_tables_same_identities_witness :
  let s : state obj :=
    state_of (perform (Allocate (Cls := cls) example_dict) __init__) in
  dom (references s) = dom (objects s).
Proof.
  intros s.
  exact (proj1 (earlier_tables_same_identities (Cls := cls) s
                  (reachable_call _ _ reachable_init))).
Defined.

(** The only reference released: the call does not return. *)
Lemma earlier_call_outcomes_witness :
  let s : state obj :=
    state_of (perform (Allocate (Cls := cls) example_dict) __init__) in
  match perform (DecreaseRef (Cls := cls) example_dict) s with
  | Returns _ s' =>
      nests s (DecreaseRef (Cls := cls) example_dict) = false ∧
      lock s' = false
  | Raises _ => False
  | Blocks s' =>
      nests s (DecreaseRef (Cls := cls) example_dict) = true ∧
      lock s' = true
  end.
Proof.
  intros s.
  exact (earlier_call_outcomes (DecreaseRef example_dict) s
           (reachable_call _ _ reachable_init) eq_refl).
Defined.

(** A new manager, the empty dict allocated and dropped. *)
Lemma earlier_allocate_then_drop_witness :
  run [Allocate (Cls := cls) empty_dict; Drop empty_dict] __init__ =
  Returns VNone
    (State ∅ ∅ [(64, empty_dict)] false 0
           [Allocated 4301 empty_dict 1 64; Dropping 4301 64]).
Proof.
  exact (earlier_allocate_then_drop (Cls := cls) empty_dict __init__
           reachable_init eq_refl eq_refl).
Defined.

(** A list waits in the pool; a dict is dropped and a dict is asked. *)
Lemma older_entries_first_witness :
  take_entry (Some dict_cls) 50 ([(8056, thousand_list)] ++ [(64, empty_dict)]) =
  Some (64, empty_dict, [(8056, thousand_list)]).
Proof.
  exact (older_entries_first (Some dict_cls) 50 [(8056, thousand_list)]
           (64, empty_dict) eq_refl).
Defined.
